(** * Index-based block partitioning and reassembly
    (strawberryfields/backends/bosonicbackend/ops.py)

    A shallow embedding of the eight functions of [ops.py] and of the
    numpy and Python primitives they are written with.

    Representation.
    - A 1-D array is a list, a 2-D array a list of rows, a batch (3-D
      array) a list of 2-D arrays.  An array with no rows carries no
      column count; the inputs of [ops.py] are square, so an input with
      no rows has no columns either.
    - The element type is a parameter [T] with the two constants the code
      writes, [0] and [1.0], and the two conversions numpy applies when
      it stores an entry in a [float64] or a [complex128] array.  An
      entry is the number it holds: [4], [4.0] and [4+0j] are one value
      of [T], so a conversion shows only where it changes the number
      (an imaginary part dropped, an integer beyond 53 bits rounded).
    - Indices are natural numbers (Python's negative indices are not
      inputs of this model).
    - A failing numpy call is a [Raise] in the [result] monad.
    - The order in which a Python set is iterated is a parameter
      [set_minus] of the functions that iterate over one; [CPython] gives
      the order of the reference interpreter.
    - [Storage] has the same functions over a store of arrays, for the
      statements about allocation and aliasing. *)

From Stdlib Require Import List Arith Bool Lia Permutation Sorted ZArith.
Import ListNotations.

Set Implicit Arguments.

(** ** Errors *)

(** [TypeError] is for an operand of the wrong rank. *)
Inductive exn : Type := IndexError | ValueError | TypeError.

Inductive result (A : Type) : Type :=
| Ok (a : A)
| Raise (e : exn).

Arguments Ok {A} a.
Arguments Raise {A} e.

Definition bind {A B : Type} (r : result A) (k : A -> result B) : result B :=
  match r with
  | Ok a => k a
  | Raise e => Raise e
  end.

Notation "x <- e ;; k" := (bind e (fun x => k))
  (at level 61, e at next level, right associativity).
Notation "' p <- e ;; k" := (bind e (fun x => let p := x in k))
  (at level 61, p pattern, e at next level, right associativity).

Fixpoint mapM {A B : Type} (f : A -> result B) (l : list A) : result (list B) :=
  match l with
  | [] => Ok []
  | a :: l' => b <- f a ;; bs <- mapM f l' ;; Ok (b :: bs)
  end.

(** A [for] loop over [l] that threads the loop state [s]. *)
Fixpoint foldM {A S : Type} (f : S -> A -> result S) (l : list A) (s : S) : result S :=
  match l with
  | [] => Ok s
  | a :: l' => s' <- f s a ;; foldM f l' s'
  end.

(** ** Python and numpy primitives *)

Section Primitives.
Context {A : Type}.

(** [enumerate(l)] *)
Definition enumerate (l : list A) : list (nat * A) :=
  combine (seq 0 (length l)) l.

(** [l[i]] *)
Definition getitem (l : list A) (i : nat) : result A :=
  match nth_error l i with
  | Some x => Ok x
  | None => Raise IndexError
  end.

(** [l] with [x] at position [i]; [l] itself when there is no such
    position. *)
Fixpoint upd (l : list A) (i : nat) (x : A) : list A :=
  match l, i with
  | [], _ => []
  | _ :: l', O => x :: l'
  | a :: l', S i' => a :: upd l' i' x
  end.

(** [l[i] = x] *)
Definition setitem (l : list A) (i : nat) (x : A) : result (list A) :=
  if i <? length l then Ok (upd l i x) else Raise IndexError.

(** [l[ids]] with [ids] a list of integers: a new array holding
    [l[ids[0]], l[ids[1]], ...]. *)
Definition take (l : list A) (ids : list nat) : result (list A) :=
  mapM (getitem l) ids.

(** [i in ids] *)
Definition mem (i : nat) (ids : list nat) : bool := existsb (Nat.eqb i) ids.

(** [np.delete(l, ids, axis=0)]: every entry of [ids] must be an index
    of [l]; the positions named in [ids] are masked out, once however
    often they are named, and the rest is returned in its order.  (numpy
    before 1.19 warned about an entry out of bounds and ignored it; every
    function of [ops.py] that calls [np.delete] also indexes with the
    same list, which raises [IndexError] in every version.) *)
Definition np_delete (l : list A) (ids : list nat) : result (list A) :=
  if forallb (fun i => i <? length l) ids
  then Ok (map snd (filter (fun p => negb (mem (fst p) ids)) (enumerate l)))
  else Raise IndexError.
End Primitives.

(** [m[i, j]] and [m[i, j] = x] on a 2-D array. *)
Definition get2 {A : Type} (m : list (list A)) (i j : nat) : result A :=
  row <- getitem m i ;; getitem row j.

Definition set2 {A : Type} (m : list (list A)) (i j : nat) (x : A)
  : result (list (list A)) :=
  row <- getitem m i ;; row' <- setitem row j x ;; setitem m i row'.

(** [np.full((r, c), x)]: [np.zeros] and [np.empty] are instances. *)
Definition full {A : Type} (r c : nat) (x : A) : list (list A) :=
  repeat (repeat x c) r.

(** [np.eye(n)] over the two constants. *)
Definition eye {A : Type} (zero one : A) (n : nat) : list (list A) :=
  map (fun i => map (fun j => if i =? j then one else zero) (seq 0 n)) (seq 0 n).

(** Broadcasting of one axis to length [n] on assignment: the axis has
    length [n], or length 1 and is repeated; anything else is numpy's
    "could not broadcast" [ValueError]. *)
Definition broadcast {A : Type} (l : list A) (n : nat) : result (list A) :=
  if length l =? n then Ok l
  else match l with
       | [x] => Ok (repeat x n)
       | _ => Raise ValueError
       end.

(** The ascending complement of [ids] in [0 .. n-1]: the positions that
    [np.delete] keeps. *)
Definition kept (n : nat) (ids : list nat) : list nat :=
  filter (fun i => negb (mem i ids)) (seq 0 n).

(** ** The functions of ops.py *)

Section Ops.
Variable T : Type.
(** The constants [0] and [1.0], and what [np.empty] leaves in an entry
    that is never written. *)
Variables zero one uninit : T.

(** The conversions numpy applies when an entry is stored in an array of
    another dtype: [to_float] into a [float64] array, which is what
    [np.empty] and [np.zeros] allocate when no dtype is given, and
    [to_complex] into a [complex128] array ([dtype=complex]). *)
Variables to_float to_complex : T -> T.

(** [set_minus n ids] is the sequence in which the Python runtime
    iterates over [set(np.arange(n)) - set(ids)].  The language fixes
    the members of that set, not their order, so the order is a
    parameter of the functions that iterate over it; [CPython.set_minus]
    below is the order of the reference interpreter. *)
Variable set_minus : nat -> list nat -> list nat.

Definition vector := list T.
Definition matrix := list (list T).
Definition batch := list matrix.

(** The first block of [chop_in_blocks]: rows, then columns removed. *)
Definition delete_rows_cols (m : matrix) (idtodelete : list nat) : result matrix :=
  A <- np_delete m idtodelete ;;
  mapM (fun row => np_delete row idtodelete) A.

(** [np.delete(m[:, idtodelete], idtodelete, axis=0)] *)
Definition cross_block (m : matrix) (idtodelete : list nat) : result matrix :=
  cols <- mapM (fun row => take row idtodelete) m ;;
  np_delete cols idtodelete.

Definition chop_in_blocks (m : matrix) (idtodelete : list nat)
  : result (matrix * matrix * matrix) :=
  A <- delete_rows_cols m idtodelete ;;
  B <- cross_block m idtodelete ;;
  let C := full (length idtodelete) (length idtodelete) uninit in
  C <- foldM (fun C '(localindex, globalindex) =>
                foldM (fun C '(localindex1, globalindex1) =>
                         x <- get2 m globalindex globalindex1 ;;
                         set2 C localindex localindex1 (to_float x))
                      (enumerate idtodelete) C)
             (enumerate idtodelete) C ;;
  Ok (A, B, C).

Definition chop_in_blocks_multi (m : batch) (idtodelete : list nat)
  : result (batch * batch * batch) :=
  A <- mapM (fun s => np_delete s idtodelete) m ;;
  A <- mapM (mapM (fun row => np_delete row idtodelete)) A ;;
  cols <- mapM (mapM (fun row => take row idtodelete)) m ;;
  B <- mapM (fun s => np_delete s idtodelete) cols ;;
  rows <- mapM (fun s => take s idtodelete) m ;;
  C <- mapM (mapM (fun row => take row idtodelete)) rows ;;
  Ok (A, B, C).

Definition chop_in_blocks_vector (v : vector) (idtodelete : list nat)
  : result (vector * vector) :=
  let idtokeep := set_minus (length v) idtodelete in
  va <- take v idtokeep ;;
  vb <- take v idtodelete ;;
  Ok (va, vb).

Definition chop_in_blocks_vector_multi (v : list vector) (idtodelete : list nat)
  : result (list vector * list vector) :=
  v0 <- getitem v 0 ;;
  let idtokeep := set_minus (length v0) idtodelete in
  va <- mapM (fun row => take row idtokeep) v ;;
  vb <- mapM (fun row => take row idtodelete) v ;;
  Ok (va, vb).

(** The double loop of [reassemble], and the write
    [newmat[w][np.ix_(ind, ind)] = A[w]] of [reassemble_multi]; [cast] is
    the conversion to the dtype of [newmat]. *)
Definition fill_kept (cast : T -> T) (A : matrix) (ind : list nat) (newmat : matrix)
  : result matrix :=
  foldM (fun newmat '(i, i1) =>
           foldM (fun newmat '(j, j1) =>
                    x <- get2 A i j ;;
                    set2 newmat i1 j1 (cast x))
                 (enumerate ind) newmat)
        (enumerate ind) newmat.

Definition reassemble (A : matrix) (idtodelete : list nat) : result matrix :=
  let ntot := length A + length idtodelete in
  let ind := set_minus ntot idtodelete in
  let newmat := full ntot ntot zero in
  newmat <- fill_kept to_float A ind newmat ;;
  foldM (fun newmat i => set2 newmat i i one) idtodelete newmat.

Definition reassemble_multi (A : batch) (idtodelete : list nat) : result batch :=
  corner <- mapM (fun s => get2 s 0 0) A ;;
  let nweights := length corner in
  A0 <- getitem A 0 ;;
  let ntot := length A0 + length idtodelete in
  let ind := set_minus ntot idtodelete in
  let newmat := repeat (eye zero one ntot) nweights in
  A <- mapM (fun s => s <- broadcast s (length ind) ;;
                      mapM (fun row => broadcast row (length ind)) s) A ;;
  mapM (fun '(s, new) => fill_kept to_complex s ind new) (combine A newmat).

(** The loop of [reassemble_vector], and the write [newv[w][ind] = va[w]]
    of [reassemble_vector_multi]; [cast] is the conversion to the dtype
    of [newv]. *)
Definition fill_kept_vector (cast : T -> T) (va : vector) (ind : list nat)
           (newv : vector) : result vector :=
  foldM (fun newv '(j, j1) => x <- getitem va j ;; setitem newv j1 (cast x))
        (enumerate ind) newv.

Definition reassemble_vector (va : vector) (idtodelete : list nat) : result vector :=
  let ntot := length va + length idtodelete in
  let ind := set_minus ntot idtodelete in
  let newv := repeat zero ntot in
  fill_kept_vector to_float va ind newv.

Definition reassemble_vector_multi (va : list vector) (idtodelete : list nat)
  : result (list vector) :=
  first <- mapM (fun row => getitem row 0) va ;;
  let nweights := length first in
  va0 <- getitem va 0 ;;
  let ntot := length va0 + length idtodelete in
  let ind := set_minus ntot idtodelete in
  let newv := full nweights ntot zero in
  va <- mapM (fun row => broadcast row (length ind)) va ;;
  mapM (fun '(row, new) => fill_kept_vector to_complex row ind new) (combine va newv).
End Ops.

Arguments chop_in_blocks {T} uninit to_float m idtodelete.
Arguments chop_in_blocks_multi {T} m idtodelete.
Arguments chop_in_blocks_vector {T} set_minus v idtodelete.
Arguments chop_in_blocks_vector_multi {T} set_minus v idtodelete.
Arguments reassemble {T} zero one to_float set_minus A idtodelete.
Arguments reassemble_multi {T} zero one to_complex set_minus A idtodelete.
Arguments reassemble_vector {T} zero to_float set_minus va idtodelete.
Arguments reassemble_vector_multi {T} zero to_complex set_minus va idtodelete.

(** ** Concrete entries

    Entries with integer values, for the scenarios: an [int64] or an
    integer-valued [float64] is its value in [Z], a complex number with
    integer parts a pair. *)

(** The value of an integer stored in a [float64] array: itself up to 53
    significant bits, beyond that rounded to 53 bits, ties to even. *)
Definition Zfloat (x : Z) : Z :=
  let a := Z.abs x in
  let shift := (Z.log2 a - 52)%Z in
  if (shift <=? 0)%Z then x
  else
    let q := Z.shiftr a shift in
    let r := Z.land a (Z.ones shift) in
    let half := Z.shiftl 1 (shift - 1) in
    let q' := if (half <? r)%Z || ((r =? half)%Z && Z.odd q) then (q + 1)%Z else q in
    (Z.sgn x * Z.shiftl q' shift)%Z.

(** A complex entry stored in a [float64] array loses its imaginary
    part; stored in a [complex128] array it keeps both parts. *)
Definition Cfloat (z : Z * Z) : Z * Z := (Zfloat (fst z), 0%Z).
Definition Ccomplex (z : Z * Z) : Z * Z := (Zfloat (fst z), Zfloat (snd z)).

(** ** The iteration order of CPython's sets

    A model of [Objects/setobject.c] (CPython 3.11) for the sets [ops.py]
    builds: the
    keys are small non-negative integers, whose hash is the integer
    itself ([np.int64] and [int] alike).  A set is an open-addressing
    table whose size is a power of two; a key goes to slot [hash & mask],
    or to the next free slot of its probe sequence; iteration walks the
    table from slot 0. *)

Module CPython.

Inductive entry : Type := Unused | Dummy | Key (k : nat).

Record setobject : Type := mkset { table : list entry; fill : nat; used : nat }.

Definition PySet_MINSIZE := 8.
Definition LINEAR_PROBES := 9.
Definition PERTURB_SHIFT := 5.

Definition mask (tbl : list entry) : nat := length tbl - 1.

Definition empty_set : setobject := mkset (repeat Unused PySet_MINSIZE) 0 0.

(** The [do ... while (probes--)] scan of the slots [i .. i+probes]:
    the first slot that is unused ([false]) or holds [key] ([true]). *)
Fixpoint scan (tbl : list entry) (key i probes : nat) : option (nat * bool) :=
  match nth i tbl Unused with
  | Unused => Some (i, false)
  | Key k => if k =? key then Some (i, true)
             else match probes with
                  | O => None
                  | S p => scan tbl key (S i) p
                  end
  | Dummy => match probes with
             | O => None
             | S p => scan tbl key (S i) p
             end
  end.

(** The [while (1)] loop of [set_add_entry] and [set_lookkey]. *)
Fixpoint lookkey (fuel : nat) (tbl : list entry) (key i perturb : nat)
  : option (nat * bool) :=
  match fuel with
  | O => None
  | S fuel' =>
      let probes := if i + LINEAR_PROBES <=? mask tbl then LINEAR_PROBES else 0 in
      match scan tbl key i probes with
      | Some r => Some r
      | None =>
          let perturb := perturb / 2 ^ PERTURB_SHIFT in
          lookkey fuel' tbl key ((i * 5 + 1 + perturb) mod length tbl) perturb
      end
  end.

(** Enough rounds for the perturbation to die out and the recurrence
    [i*5+1] to visit every slot. *)
Definition rounds (tbl : list entry) : nat := 14 + length tbl.

Definition find (tbl : list entry) (key : nat) : option (nat * bool) :=
  lookkey (rounds tbl) tbl key (key mod length tbl) key.

Definition set_contains (so : setobject) (key : nat) : bool :=
  match find (table so) key with
  | Some (_, true) => true
  | _ => false
  end.

(** [set_insert_clean]: the key is known to be absent and the table
    holds no dummy. *)
Definition set_insert_clean (tbl : list entry) (key : nat) : list entry :=
  match find tbl key with
  | Some (i, false) => upd tbl i (Key key)
  | _ => tbl
  end.

Definition keys (tbl : list entry) : list nat :=
  flat_map (fun e => match e with Key k => [k] | _ => [] end) tbl.

Fixpoint grow (fuel newsize minused : nat) : nat :=
  match fuel with
  | O => newsize
  | S fuel' => if newsize <=? minused then grow fuel' (2 * newsize) minused
               else newsize
  end.

Definition set_table_resize (so : setobject) (minused : nat) : setobject :=
  let newsize := grow (S minused) PySet_MINSIZE minused in
  let tbl := fold_left set_insert_clean (keys (table so)) (repeat Unused newsize) in
  mkset tbl (used so) (used so).

Definition resize_target (so : setobject) : nat :=
  if (50000 <? N.of_nat (used so))%N then used so * 2 else used so * 4.

(** [set_add_entry], called on tables without dummies. *)
Definition set_add_entry (so : setobject) (key : nat) : setobject :=
  match find (table so) key with
  | Some (i, false) =>
      let so := mkset (upd (table so) i (Key key)) (S (fill so)) (S (used so)) in
      if fill so * 5 <? mask (table so) * 3 then so
      else set_table_resize so (resize_target so)
  | _ => so
  end.

(** [set(iterable)] *)
Definition set_of (l : list nat) : setobject := fold_left set_add_entry l empty_set.

Definition set_discard_entry (so : setobject) (key : nat) : setobject :=
  match find (table so) key with
  | Some (i, true) => mkset (upd (table so) i Dummy) (fill so) (used so - 1)
  | _ => so
  end.

(** [set_merge] into the empty set that [set_copy] has just made. *)
Definition set_copy (other : setobject) : setobject :=
  let so := empty_set in
  let so := if mask (table so) * 3 <=? (fill so + used other) * 5
            then set_table_resize so ((used so + used other) * 2) else so in
  if (mask (table so) =? mask (table other)) && (fill other =? used other)
  then mkset (table other) (fill other) (used other)
  else mkset (fold_left set_insert_clean (keys (table other)) (table so))
             (used other) (used other).

Definition set_difference_update (so other : setobject) : setobject :=
  let so := fold_left set_discard_entry (keys (table other)) so in
  if fill so - used so <=? mask (table so) / 4 then so
  else set_table_resize so (resize_target so).

(** [so - other] *)
Definition set_difference (so other : setobject) : setobject :=
  if used other <? used so / 4
  then set_difference_update (set_copy so) other
  else fold_left (fun result key =>
                    if set_contains other key then result
                    else set_add_entry result key)
                 (keys (table so)) empty_set.

(** [list(set(np.arange(n)) - set(ids))] *)
Definition set_minus (n : nat) (ids : list nat) : list nat :=
  keys (table (set_difference (set_of (seq 0 n)) (set_of ids))).

End CPython.

(** ** Storage

    The same eight functions over a store of arrays, to follow which
    arrays a call reads, which it allocates and which it writes.  A
    reference is a position in the store.  [np.copy], [np.delete],
    indexing with a list of integers, [np.empty], [np.zeros], [np.tile]
    allocate a new array; an assignment [a[...] = x] writes the array
    [a] refers to; [len(A[:,0,0])], [len(A[0])] and the like read a view
    that is dropped at once. *)

Module Storage.
Section Programs.
Variable T : Type.
Variables zero one uninit : T.
Variables to_float to_complex : T -> T.
Variable set_minus : nat -> list nat -> list nat.

Inductive ndarray : Type :=
| Arr1 (v : vector T)
| Arr2 (m : matrix T)
| Arr3 (b : batch T).

Definition store := list ndarray.
Definition ref := nat.

(** A computation that may change the store or raise. *)
Definition prog (X : Type) : Type := store -> result (X * store).

Definition ret {X : Type} (x : X) : prog X := fun s => Ok (x, s).

Definition bindp {X Y : Type} (p : prog X) (k : X -> prog Y) : prog Y :=
  fun s => match p s with
           | Ok (x, s') => k x s'
           | Raise e => Raise e
           end.

Definition lift {X : Type} (r : result X) : prog X :=
  fun s => match r with
           | Ok x => Ok (x, s)
           | Raise e => Raise e
           end.

Definition alloc (a : ndarray) : prog ref := fun s => Ok (length s, s ++ [a]).

Definition load1 (r : ref) : prog (vector T) :=
  fun s => match nth_error s r with
           | Some (Arr1 v) => Ok (v, s)
           | _ => Raise TypeError
           end.

Definition load2 (r : ref) : prog (matrix T) :=
  fun s => match nth_error s r with
           | Some (Arr2 m) => Ok (m, s)
           | _ => Raise TypeError
           end.

Definition load3 (r : ref) : prog (batch T) :=
  fun s => match nth_error s r with
           | Some (Arr3 b) => Ok (b, s)
           | _ => Raise TypeError
           end.

Definition write (r : ref) (a : ndarray) : prog unit :=
  fun s => if r <? length s then Ok (tt, upd s r a) else Raise TypeError.

Fixpoint for_ {X : Type} (l : list X) (body : X -> prog unit) : prog unit :=
  match l with
  | [] => ret tt
  | x :: l' => bindp (body x) (fun _ => for_ l' body)
  end.

(** An array computed from one operand and put in a new place. *)
Definition new1 {X : Type} (load : ref -> prog X) (wrap : X -> ndarray)
           (f : X -> result X) (r : ref) : prog ref :=
  bindp (load r) (fun x => bindp (lift (f x)) (fun y => alloc (wrap y))).

(** [m[i, j]], [m[i, j] = x], [v[j]], [v[j] = x]. *)
Definition getitem2 (m : ref) (i j : nat) : prog T :=
  bindp (load2 m) (fun x => lift (get2 x i j)).

Definition setitem2 (m : ref) (i j : nat) (x : T) : prog unit :=
  bindp (load2 m) (fun a => bindp (lift (set2 a i j x)) (fun a' => write m (Arr2 a'))).

Definition getitem1 (v : ref) (j : nat) : prog T :=
  bindp (load1 v) (fun x => lift (getitem x j)).

Definition setitem1 (v : ref) (j : nat) (x : T) : prog unit :=
  bindp (load1 v) (fun a => bindp (lift (setitem a j x)) (fun a' => write v (Arr1 a'))).

Definition chop_in_blocks (m : ref) (idtodelete : list nat) : prog (ref * ref * ref) :=
  bindp (new1 load2 Arr2 (fun x => Ok x) m) (fun A =>
  bindp (new1 load2 Arr2 (fun x => np_delete x idtodelete) A) (fun A =>
  bindp (new1 load2 Arr2 (mapM (fun row => np_delete row idtodelete)) A) (fun A =>
  bindp (new1 load2 Arr2 (mapM (fun row => take row idtodelete)) m) (fun cols =>
  bindp (new1 load2 Arr2 (fun x => np_delete x idtodelete) cols) (fun B =>
  bindp (alloc (Arr2 (full (length idtodelete) (length idtodelete) uninit))) (fun C =>
  bindp (for_ (enumerate idtodelete) (fun '(localindex, globalindex) =>
           for_ (enumerate idtodelete) (fun '(localindex1, globalindex1) =>
             bindp (getitem2 m globalindex globalindex1) (fun x =>
             setitem2 C localindex localindex1 (to_float x))))) (fun _ =>
  ret (A, B, C)))))))).

Definition chop_in_blocks_multi (m : ref) (idtodelete : list nat)
  : prog (ref * ref * ref) :=
  bindp (new1 load3 Arr3 (fun x => Ok x) m) (fun A =>
  bindp (new1 load3 Arr3 (mapM (fun s => np_delete s idtodelete)) A) (fun A =>
  bindp (new1 load3 Arr3 (mapM (mapM (fun row => np_delete row idtodelete))) A) (fun A =>
  bindp (new1 load3 Arr3 (mapM (mapM (fun row => take row idtodelete))) m) (fun cols =>
  bindp (new1 load3 Arr3 (mapM (fun s => np_delete s idtodelete)) cols) (fun B =>
  bindp (new1 load3 Arr3 (mapM (fun s => take s idtodelete)) m) (fun rows =>
  bindp (new1 load3 Arr3 (mapM (mapM (fun row => take row idtodelete))) rows) (fun C =>
  ret (A, B, C)))))))).

Definition chop_in_blocks_vector (v : ref) (idtodelete : list nat) : prog (ref * ref) :=
  bindp (load1 v) (fun x =>
  let idtokeep := set_minus (length x) idtodelete in
  bindp (new1 load1 Arr1 (fun x => take x idtokeep) v) (fun va =>
  bindp (new1 load1 Arr1 (fun x => take x idtodelete) v) (fun vb =>
  ret (va, vb)))).

Definition chop_in_blocks_vector_multi (v : ref) (idtodelete : list nat)
  : prog (ref * ref) :=
  bindp (load2 v) (fun x =>
  bindp (lift (getitem x 0)) (fun v0 =>
  let idtokeep := set_minus (length v0) idtodelete in
  bindp (new1 load2 Arr2 (mapM (fun row => take row idtokeep)) v) (fun va =>
  bindp (new1 load2 Arr2 (mapM (fun row => take row idtodelete)) v) (fun vb =>
  ret (va, vb))))).

Definition reassemble (A : ref) (idtodelete : list nat) : prog ref :=
  bindp (load2 A) (fun a =>
  let ntot := length a + length idtodelete in
  let ind := set_minus ntot idtodelete in
  bindp (alloc (Arr2 (full ntot ntot zero))) (fun newmat =>
  bindp (for_ (enumerate ind) (fun '(i, i1) =>
           for_ (enumerate ind) (fun '(j, j1) =>
             bindp (getitem2 A i j) (fun x =>
             setitem2 newmat i1 j1 (to_float x))))) (fun _ =>
  bindp (for_ idtodelete (fun i => setitem2 newmat i i one)) (fun _ =>
  ret newmat)))).

Definition reassemble_multi (A : ref) (idtodelete : list nat) : prog ref :=
  bindp (load3 A) (fun a =>
  bindp (lift (mapM (fun s => get2 s 0 0) a)) (fun corner =>
  let nweights := length corner in
  bindp (lift (getitem a 0)) (fun A0 =>
  let ntot := length A0 + length idtodelete in
  let ind := set_minus ntot idtodelete in
  bindp (alloc (Arr3 (repeat (eye zero one ntot) nweights))) (fun newmat =>
  bindp (load3 newmat) (fun new =>
  bindp (lift (mapM (fun s => bind (broadcast s (length ind))
                                   (mapM (fun row => broadcast row (length ind)))) a))
        (fun a =>
  bindp (lift (mapM (fun '(s, n) => fill_kept to_complex s ind n) (combine a new)))
        (fun new =>
  bindp (write newmat (Arr3 new)) (fun _ =>
  ret newmat)))))))).

Definition reassemble_vector (va : ref) (idtodelete : list nat) : prog ref :=
  bindp (load1 va) (fun a =>
  let ntot := length a + length idtodelete in
  let ind := set_minus ntot idtodelete in
  bindp (alloc (Arr1 (repeat zero ntot))) (fun newv =>
  bindp (for_ (enumerate ind) (fun '(j, j1) =>
           bindp (getitem1 va j) (fun x => setitem1 newv j1 (to_float x)))) (fun _ =>
  ret newv))).

Definition reassemble_vector_multi (va : ref) (idtodelete : list nat) : prog ref :=
  bindp (load2 va) (fun a =>
  bindp (lift (mapM (fun row => getitem row 0) a)) (fun first =>
  let nweights := length first in
  bindp (lift (getitem a 0)) (fun va0 =>
  let ntot := length va0 + length idtodelete in
  let ind := set_minus ntot idtodelete in
  bindp (alloc (Arr2 (full nweights ntot zero))) (fun newv =>
  bindp (load2 newv) (fun new =>
  bindp (lift (mapM (fun row => broadcast row (length ind)) a)) (fun a =>
  bindp (lift (mapM (fun '(row, n) => fill_kept_vector to_complex row ind n)
                    (combine a new)))
        (fun new =>
  bindp (write newv (Arr2 new)) (fun _ =>
  ret newv)))))))).

End Programs.
End Storage.

(** ** Vocabulary of the statements *)

(** [shape r c m]: [m] is an [r] by [c] array. *)
Definition shape {A : Type} (r c : nat) (m : list (list A)) : Prop :=
  length m = r /\ Forall (fun row => length row = c) m.

(** The entry [m[i, j]], with [d] where there is none. *)
Definition at2 {A : Type} (d : A) (m : list (list A)) (i j : nat) : A :=
  nth j (nth i m []) d.

(** Valid indices to delete: distinct and in range. *)
Definition valid (n : nat) (ids : list nat) : Prop :=
  NoDup ids /\ Forall (fun i => i < n) ids.

(** The sub-array of [m] on the given rows and columns. *)
Definition submatrix {A : Type} (d : A) (m : list (list A)) (rows cols : list nat)
  : list (list A) :=
  map (fun i => map (fun j => at2 d m i j) cols) rows.

(** [f] applied to every entry. *)
Definition map2d {A B : Type} (f : A -> B) (m : list (list A)) : list (list B) :=
  map (map f) m.

(** The position of [x] in [l]. *)
Fixpoint index_of (x : nat) (l : list nat) : option nat :=
  match l with
  | [] => None
  | y :: l' => if x =? y then Some 0 else option_map S (index_of x l')
  end.

(** The [r] by [c] array with entries [f i j]. *)
Definition tabulate {A : Type} (r c : nat) (f : nat -> nat -> A) : list (list A) :=
  map (fun i => map (fun j => f i j) (seq 0 c)) (seq 0 r).

(** The entry written at position [p] of the full vector, or what was
    there before. *)
Definition placed_vector {T : Type} (d : T) (va : vector T) (ind : list nat) (newv : vector T)
  : vector T :=
  map (fun p => match index_of p ind with
                | Some j => nth j va d
                | None => nth p newv d
                end)
      (seq 0 (length newv)).

(** The entry written at position [(i1, j1)] of the full matrix, or what
    was there before. *)
Definition placed_matrix {T : Type} (d : T) (n : nat) (A : matrix T) (ind : list nat) (newmat : matrix T)
  : matrix T :=
  tabulate n n (fun i1 j1 => match index_of i1 ind, index_of j1 ind with
                             | Some i, Some j => at2 d A i j
                             | _, _ => at2 d newmat i1 j1
                             end).

(** The result of [reassemble] when the kept indices are iterated in the
    order [ind]. *)
Definition reassembled {T : Type} (d zero one : T) (n : nat) (A : matrix T) (ind ids : list nat)
  : matrix T :=
  tabulate n n (fun i1 j1 =>
                  if (i1 =? j1) && mem i1 ids then one
                  else match index_of i1 ind, index_of j1 ind with
                       | Some i, Some j => at2 d A i j
                       | _, _ => zero
                       end).

(** The fill convention: [1.0] on the diagonal at every deleted index,
    [0] at every off-diagonal position with a deleted index. *)
Definition fill_convention {T : Type} (d zero one : T) (n : nat) (ids : list nat)
           (M : matrix T) : Prop :=
  shape n n M /\
  (forall i, In i ids -> at2 d M i i = one) /\
  (forall i j, i < n -> j < n -> i <> j -> In i ids \/ In j ids ->
               at2 d M i j = zero).

(** [s'] is [s] followed by new arrays, and the references [rs] are
    distinct places among the new ones. *)
Definition allocated {T : Type} (s s' : Storage.store T) (rs : list nat) : Prop :=
  (exists ext, s' = s ++ ext) /\ NoDup rs /\
  Forall (fun r => length s <= r < length s') rs.

(** [M[i, j] = M[j, i]] for the indices below [n]. *)
Definition symmetric {T : Type} (d : T) (n : nat) (M : list (list T)) : Prop :=
  forall i j, i < n -> j < n -> at2 d M i j = at2 d M j i.

(** ** The scenarios of the specification *)

Example chop_in_blocks_3 :
  chop_in_blocks 0%Z Zfloat [[1;2;3];[2;4;5];[3;5;6]]%Z [1]
  = Ok ([[1;3];[3;6]], [[2];[5]], [[4]])%Z.
Proof. reflexivity. Qed.

Example reassemble_3 :
  reassemble 0%Z 1%Z Zfloat CPython.set_minus [[1;3];[3;6]]%Z [1]
  = Ok [[1;0;3];[0;1;0];[3;0;6]]%Z.
Proof. reflexivity. Qed.

Example reassemble_multi_3 :
  reassemble_multi 0%Z 1%Z Zfloat CPython.set_minus [[[1;3];[3;6]]]%Z [1]
  = Ok [[[1;0;3];[0;1;0];[3;0;6]]]%Z.
Proof. reflexivity. Qed.

Example chop_in_blocks_vector_4 :
  chop_in_blocks_vector CPython.set_minus [10;20;30;40]%Z [0;2]
  = Ok ([20;40], [10;30])%Z.
Proof. reflexivity. Qed.

Example reassemble_vector_4 :
  reassemble_vector 0%Z Zfloat CPython.set_minus [20;40]%Z [0;2] = Ok [0;20;0;40]%Z.
Proof. reflexivity. Qed.

(** [list(set(range(10)) - set([0,2,3,4,5,6,7,9]))] is [[8, 1]]: in a
    table of eight slots the key 8 goes to slot 0 and the key 1 to slot 1. *)
Example set_minus_10 : CPython.set_minus 10 [0;2;3;4;5;6;7;9] = [8;1].
Proof. reflexivity. Qed.

(** ** Facts about the primitives *)

Lemma mem_In (i : nat) (ids : list nat) : mem i ids = true <-> In i ids.
Proof.
  unfold mem. rewrite existsb_exists. split.
  - intros (x & Hx & E). apply Nat.eqb_eq in E. now subst.
  - intros H. exists i. split; [assumption | apply Nat.eqb_refl].
Qed.

Lemma mem_not_In (i : nat) (ids : list nat) : mem i ids = false <-> ~ In i ids.
Proof.
  rewrite <- mem_In. destruct (mem i ids); split; congruence.
Qed.

Lemma in_kept (n : nat) (ids : list nat) (i : nat) :
  In i (kept n ids) <-> i < n /\ ~ In i ids.
Proof.
  unfold kept. rewrite filter_In, in_seq, negb_true_iff, mem_not_In.
  split; intros [H1 H2]; split; auto; lia.
Qed.

Lemma NoDup_kept (n : nat) (ids : list nat) : NoDup (kept n ids).
Proof. apply NoDup_filter, seq_NoDup. Qed.

Lemma length_kept (n : nat) (ids : list nat) :
  valid n ids -> length (kept n ids) = n - length ids.
Proof.
  intros [Hnd Hin]. unfold kept.
  pose proof (filter_length (fun i => mem i ids) (seq 0 n)) as H.
  rewrite length_seq in H.
  assert (E : length (filter (fun i => mem i ids) (seq 0 n)) = length ids).
  { apply Permutation_length, NoDup_Permutation.
    - apply NoDup_filter, seq_NoDup.
    - assumption.
    - intros x. rewrite filter_In, in_seq, mem_In. rewrite Forall_forall in Hin.
      split; [tauto | intros Hx; specialize (Hin x Hx); simpl in Hin; split; [lia | assumption]]. }
  lia.
Qed.

Lemma sorted_filter_seq (f : nat -> bool) (len s : nat) :
  StronglySorted lt (filter f (seq s len)).
Proof.
  revert s. induction len as [|len IH]; intros s; simpl; [constructor|].
  destruct (f s); [|apply IH].
  constructor; [apply IH|].
  apply Forall_forall. intros x Hx. apply filter_In in Hx as [Hx _].
  apply in_seq in Hx. lia.
Qed.

(** The kept indices come in ascending order. *)
Lemma kept_ascending (n : nat) (ids : list nat) : StronglySorted lt (kept n ids).
Proof. apply sorted_filter_seq. Qed.

Lemma shape_row {A : Type} (r c : nat) (m : list (list A)) (i : nat) :
  shape r c m -> i < r -> length (nth i m []) = c.
Proof.
  intros [Hl Hr] Hi. rewrite Forall_forall in Hr. apply Hr, nth_In. lia.
Qed.

Lemma mapM_map {A B : Type} (f : A -> result B) (g : A -> B) (l : list A) :
  (forall x, In x l -> f x = Ok (g x)) -> mapM f l = Ok (map g l).
Proof.
  induction l as [|a l IH]; intros H; simpl; [reflexivity|].
  rewrite (H a (or_introl eq_refl)). simpl.
  rewrite IH by (intros x Hx; apply H; now right). reflexivity.
Qed.

Lemma mapM_compose {A B C : Type} (f : B -> result C) (g : A -> B) (l : list A) :
  mapM f (map g l) = mapM (fun x => f (g x)) l.
Proof.
  induction l as [|a l IH]; simpl; [reflexivity | now rewrite IH].
Qed.

Lemma getitem_nth {A : Type} (d : A) (l : list A) (i : nat) :
  i < length l -> getitem l i = Ok (nth i l d).
Proof.
  intros H. unfold getitem. now rewrite (nth_error_nth' l d H).
Qed.

Lemma getitem_out {A : Type} (l : list A) (i : nat) :
  length l <= i -> getitem l i = Raise IndexError.
Proof.
  intros H. unfold getitem. apply nth_error_None in H. now rewrite H.
Qed.

Lemma take_nth {A : Type} (d : A) (l : list A) (ids : list nat) :
  Forall (fun i => i < length l) ids ->
  take l ids = Ok (map (fun i => nth i l d) ids).
Proof.
  intros H. apply mapM_map. intros i Hi. apply getitem_nth.
  rewrite Forall_forall in H. now apply H.
Qed.

Lemma filter_enumerate {A : Type} (d : A) (f : nat -> bool) (l : list A) (s : nat) :
  map snd (filter (fun p => f (fst p)) (combine (seq s (length l)) l))
  = map (fun i => nth (i - s) l d) (filter f (seq s (length l))).
Proof.
  revert s. induction l as [|a l IH]; intros s; simpl; [reflexivity|].
  destruct (f s); simpl.
  - rewrite Nat.sub_diag, IH. f_equal. apply map_ext_in.
    intros i Hi. apply filter_In in Hi as [Hi _]. apply in_seq in Hi.
    replace (i - s) with (S (i - S s)) by lia. reflexivity.
  - rewrite IH. apply map_ext_in.
    intros i Hi. apply filter_In in Hi as [Hi _]. apply in_seq in Hi.
    replace (i - s) with (S (i - S s)) by lia. reflexivity.
Qed.

Lemma np_delete_kept {A : Type} (d : A) (l : list A) (ids : list nat) :
  Forall (fun i => i < length l) ids ->
  np_delete l ids = Ok (map (fun i => nth i l d) (kept (length l) ids)).
Proof.
  intros H. unfold np_delete.
  replace (forallb (fun i => i <? length l) ids) with true.
  - unfold enumerate, kept.
    rewrite (filter_enumerate d (fun i => negb (mem i ids)) l 0).
    f_equal. apply map_ext. intros i. now rewrite Nat.sub_0_r.
  - symmetry. apply forallb_forall. intros i Hi. apply Nat.ltb_lt.
    rewrite Forall_forall in H. now apply H.
Qed.

Lemma np_delete_out {A : Type} (l : list A) (ids : list nat) :
  ~ Forall (fun i => i < length l) ids -> np_delete l ids = Raise IndexError.
Proof.
  intros H. unfold np_delete.
  destruct (forallb (fun i => i <? length l) ids) eqn:E; [|reflexivity].
  exfalso. apply H, Forall_forall. intros i Hi.
  rewrite forallb_forall in E. now apply Nat.ltb_lt, E.
Qed.

Lemma length_upd {A : Type} (l : list A) (i : nat) (x : A) :
  length (upd l i x) = length l.
Proof.
  revert i. induction l as [|a l IH]; intros [|i]; simpl; auto.
Qed.

Lemma nth_upd {A : Type} (d : A) (l : list A) (i i' : nat) (x : A) :
  i < length l ->
  nth i' (upd l i x) d = if i' =? i then x else nth i' l d.
Proof.
  revert i i'. induction l as [|a l IH]; intros i i' H; simpl in H; [lia|].
  destruct i as [|i], i' as [|i']; simpl; try reflexivity.
  apply IH. lia.
Qed.

Lemma upd_out {A : Type} (l : list A) (i : nat) (x : A) :
  length l <= i -> upd l i x = l.
Proof.
  revert i. induction l as [|a l IH]; intros [|i] H; simpl in *; try reflexivity.
  - lia.
  - f_equal. apply IH. lia.
Qed.

Lemma setitem_ok {A : Type} (l : list A) (i : nat) (x : A) :
  i < length l -> setitem l i x = Ok (upd l i x).
Proof.
  intros H. unfold setitem. apply Nat.ltb_lt in H. now rewrite H.
Qed.

Lemma matrix_ext {A : Type} (d : A) (r c : nat) (m m' : list (list A)) :
  shape r c m -> shape r c m' ->
  (forall i j, i < r -> j < c -> at2 d m i j = at2 d m' i j) ->
  m = m'.
Proof.
  intros Hm Hm' H. apply (nth_ext m m' [] []).
  - destruct Hm, Hm'. congruence.
  - intros i Hi. destruct Hm as [Hl Hr] eqn:Em. rewrite Hl in Hi.
    apply (nth_ext _ _ d d).
    + now rewrite (shape_row Hm Hi), (shape_row Hm' Hi).
    + intros j Hj. rewrite (shape_row Hm Hi) in Hj. now apply H.
Qed.

Lemma set2_spec {A : Type} (d : A) (r c : nat) (m : list (list A)) (i j : nat) (x : A) :
  shape r c m -> i < r -> j < c ->
  exists m', set2 m i j x = Ok m' /\ shape r c m' /\
             forall i' j', at2 d m' i' j'
                           = if (i' =? i) && (j' =? j) then x else at2 d m i' j'.
Proof.
  intros Hm Hi Hj. pose proof (shape_row Hm Hi) as Hrow.
  destruct Hm as [Hl Hr].
  exists (upd m i (upd (nth i m []) j x)). unfold set2.
  rewrite (getitem_nth [] m) by lia. simpl.
  rewrite setitem_ok by lia. simpl.
  rewrite setitem_ok by lia. split; [reflexivity|]. split.
  - split; [now rewrite length_upd|].
    apply Forall_forall. intros row Hin.
    destruct (In_nth _ _ [] Hin) as (a & Ha & <-).
    rewrite length_upd in Ha. rewrite nth_upd by lia.
    destruct (a =? i); [now rewrite length_upd|].
    rewrite Forall_forall in Hr. apply Hr, nth_In. lia.
  - intros i' j'. unfold at2. rewrite nth_upd by lia.
    destruct (i' =? i) eqn:E; simpl; [|reflexivity].
    apply Nat.eqb_eq in E. subst i'. now rewrite nth_upd by lia.
Qed.

(** A loop that keeps an invariant [P], indexed by the number of
    iterations done, runs to its end. *)
Lemma foldM_inv {A St : Type} (P : nat -> St -> Prop) (f : St -> A -> result St)
      (l : list A) (s : St) :
  P 0 s ->
  (forall i a s, nth_error l i = Some a -> P i s ->
                 exists s', f s a = Ok s' /\ P (S i) s') ->
  exists s', foldM f l s = Ok s' /\ P (length l) s'.
Proof.
  intros H0 Hstep.
  assert (G : forall l2 l1 s, l = l1 ++ l2 -> P (length l1) s ->
                              exists s', foldM f l2 s = Ok s' /\ P (length l) s').
  { induction l2 as [|a l2 IH]; intros l1 s1 E HP.
    - exists s1. split; [reflexivity|]. subst l. now rewrite app_nil_r.
    - destruct (Hstep (length l1) a s1) as (s2 & E2 & HP2); [|assumption|].
      + subst l. rewrite nth_error_app2 by lia. now rewrite Nat.sub_diag.
      + simpl. rewrite E2. simpl. apply (IH (l1 ++ [a])).
        * subst l. now rewrite <- app_assoc.
        * rewrite length_app. simpl. now rewrite Nat.add_1_r. }
  apply (G l [] s); [reflexivity | assumption].
Qed.

Lemma length_enumerate {A : Type} (l : list A) : length (enumerate l) = length l.
Proof.
  unfold enumerate. rewrite length_combine, length_seq. apply Nat.min_id.
Qed.

Lemma nth_error_enumerate {A : Type} (l : list A) (i : nat) (p : nat * A) :
  nth_error (enumerate l) i = Some p ->
  fst p = i /\ nth_error l i = Some (snd p) /\ i < length l.
Proof.
  intros H.
  assert (Hi : i < length l).
  { rewrite <- (length_enumerate l). apply nth_error_Some. congruence. }
  unfold enumerate in H.
  assert (E : nth_error (combine (seq 0 (length l)) l) i
              = Some (i, nth i l (snd p))).
  { rewrite (nth_error_nth' _ (0, snd p)).
    - rewrite combine_nth by apply length_seq. now rewrite seq_nth.
    - rewrite length_combine, length_seq. lia. }
  rewrite E in H. injection H as <-. simpl.
  repeat split; [|assumption]. now apply nth_error_nth'.
Qed.

Lemma shape_submatrix {A : Type} (d : A) (m : list (list A)) (rows cols : list nat) :
  shape (length rows) (length cols) (submatrix d m rows cols).
Proof.
  split; [apply length_map|]. apply Forall_forall. intros row H.
  apply in_map_iff in H as (i & <- & _). apply length_map.
Qed.

Lemma at2_submatrix {A : Type} (d : A) (m : list (list A)) (rows cols : list nat)
      (a b : nat) :
  a < length rows -> b < length cols ->
  at2 d (submatrix d m rows cols) a b = at2 d m (nth a rows 0) (nth b cols 0).
Proof.
  intros Ha Hb. unfold submatrix, at2 at 1.
  rewrite (nth_indep _ [] (map (fun j => at2 d m 0 j) cols))
    by now rewrite length_map.
  rewrite (map_nth (fun i => map (fun j => at2 d m i j) cols) rows 0 a).
  rewrite (nth_indep _ d (at2 d m (nth a rows 0) 0)) by now rewrite length_map.
  apply (map_nth (fun j => at2 d m (nth a rows 0) j) cols 0 b).
Qed.

Lemma shape_map2d {A B : Type} (f : A -> B) (r c : nat) (m : list (list A)) :
  shape r c m -> shape r c (map2d f m).
Proof.
  intros [Hl Hr]. split; [unfold map2d; now rewrite length_map|].
  apply Forall_forall. intros row H. apply in_map_iff in H as (row' & <- & H).
  rewrite length_map. rewrite Forall_forall in Hr. now apply Hr.
Qed.

Lemma at2_map2d {A : Type} (d : A) (f : A -> A) (r c : nat) (m : list (list A))
      (i j : nat) :
  shape r c m -> i < r -> j < c -> at2 d (map2d f m) i j = f (at2 d m i j).
Proof.
  intros Hm Hi Hj. pose proof (shape_row Hm Hi) as Hrow. destruct Hm as [Hl _].
  unfold at2, map2d.
  rewrite (nth_indep _ [] (map f [])) by (rewrite length_map; lia).
  rewrite (map_nth (map f) m [] i).
  rewrite (nth_indep _ d (f d)) by (rewrite length_map; lia).
  apply (map_nth f).
Qed.

Lemma nth_map_lt {A : Type} (d : A) (f : A -> A) (l : list A) (j : nat) :
  j < length l -> nth j (map f l) d = f (nth j l d).
Proof.
  intros H. rewrite (nth_indep (map f l) d (f d)) by now rewrite length_map.
  apply (map_nth f).
Qed.

Lemma map2d_fixed {A : Type} (d : A) (f : A -> A) (r c : nat) (m : list (list A)) :
  shape r c m -> (forall i j, i < r -> j < c -> f (at2 d m i j) = at2 d m i j) ->
  map2d f m = m.
Proof.
  intros Hm H. apply (matrix_ext d (shape_map2d f Hm) Hm).
  intros i j Hi Hj. rewrite (at2_map2d d f Hm Hi Hj). now apply H.
Qed.

(** ** The partition of one matrix *)

Section ChopFacts.
Variable T : Type.
Variable d : T.
Variable to_float : T -> T.

Lemma delete_rows_cols_spec (r c : nat) (m : matrix T) (ids : list nat) :
  shape r c m ->
  Forall (fun i => i < r) ids -> Forall (fun i => i < c) ids ->
  delete_rows_cols m ids = Ok (submatrix d m (kept r ids) (kept c ids)).
Proof.
  intros Hm Hr Hc. unfold delete_rows_cols.
  pose proof Hm as [Hl _].
  rewrite (np_delete_kept [] m) by now rewrite Hl.
  simpl. rewrite mapM_compose, Hl. apply mapM_map.
  intros i Hi. apply in_kept in Hi as [Hi _].
  pose proof (shape_row Hm Hi) as Hrow.
  rewrite (np_delete_kept d) by now rewrite Hrow.
  now rewrite Hrow.
Qed.

Lemma take_cols_spec (r c : nat) (m : matrix T) (ids : list nat) :
  shape r c m -> Forall (fun i => i < c) ids ->
  mapM (fun row => take row ids) m
  = Ok (map (fun row => map (fun j => nth j row d) ids) m).
Proof.
  intros [_ Hrows] Hc. apply mapM_map. intros row Hrow.
  apply take_nth. rewrite Forall_forall in Hrows.
  now rewrite (Hrows row Hrow).
Qed.

Lemma cross_block_spec (r c : nat) (m : matrix T) (ids : list nat) :
  shape r c m ->
  Forall (fun i => i < r) ids -> Forall (fun i => i < c) ids ->
  cross_block m ids = Ok (submatrix d m (kept r ids) ids).
Proof.
  intros Hm Hr Hc. unfold cross_block.
  rewrite (take_cols_spec Hm Hc). simpl.
  pose proof Hm as [Hl _].
  rewrite (np_delete_kept []) by now rewrite length_map, Hl.
  rewrite length_map, Hl. f_equal. apply map_ext_in.
  intros i Hi. apply in_kept in Hi as [Hi _].
  rewrite (nth_indep _ [] (map (fun j => nth j [] d) ids))
    by now rewrite length_map, Hl.
  now rewrite (map_nth (fun row => map (fun j => nth j row d) ids) m [] i).
Qed.

Lemma take_rows_cols_spec (r c : nat) (m : matrix T) (ids : list nat) :
  shape r c m ->
  Forall (fun i => i < r) ids -> Forall (fun i => i < c) ids ->
  (rows <- take m ids ;; mapM (fun row => take row ids) rows)
  = Ok (submatrix d m ids ids).
Proof.
  intros Hm Hr Hc. pose proof Hm as [Hl _].
  rewrite (take_nth []) by now rewrite Hl.
  simpl. rewrite mapM_compose. apply mapM_map.
  intros i Hi. rewrite Forall_forall in Hr. specialize (Hr i Hi). simpl in Hr.
  apply take_nth. now rewrite (shape_row Hm Hr).
Qed.

(** The double loop that fills [C]. *)
Lemma gather_loop_spec (r c : nat) (m C0 : matrix T) (ids : list nat) :
  shape r c m ->
  Forall (fun i => i < r) ids -> Forall (fun i => i < c) ids ->
  shape (length ids) (length ids) C0 ->
  foldM (fun C '(localindex, globalindex) =>
           foldM (fun C '(localindex1, globalindex1) =>
                    x <- get2 m globalindex globalindex1 ;;
                    set2 C localindex localindex1 (to_float x))
                 (enumerate ids) C)
        (enumerate ids) C0
  = Ok (map2d to_float (submatrix d m ids ids)).
Proof.
  intros Hm Hr Hc HC0. set (k := length ids) in *.
  set (want := fun i j => to_float (at2 d m (nth i ids 0) (nth j ids 0))).
  match goal with |- foldM ?f _ _ = _ =>
    destruct (foldM_inv
      (fun a C => shape k k C /\
                  forall i j, i < a -> j < k -> at2 d C i j = want i j)
      f (enumerate ids) C0) as (C & E & HC & Hent)
  end.
  - split; [assumption | intros; lia].
  - intros a [a' g] C Hnth [HC Hdone].
    apply nth_error_enumerate in Hnth as (Ea & Hg & Ha). simpl in Ea, Hg. subst a'.
    match goal with |- exists _, foldM ?f _ _ = _ /\ _ =>
      destruct (foldM_inv
        (fun b C' => shape k k C' /\
                     (forall i j, i < a -> j < k -> at2 d C' i j = want i j) /\
                     (forall j, j < b -> at2 d C' a j = want a j))
        f (enumerate ids) C) as (C' & E' & HC' & Hold & Hnew)
    end.
    + repeat split; [apply HC | apply HC | assumption | intros; lia].
    + intros b [b' g1] C1 Hnth1 (HC1 & Hold & Hnew).
      apply nth_error_enumerate in Hnth1 as (Eb & Hg1 & Hb).
      simpl in Eb, Hg1. subst b'.
      assert (Hgr : g < r).
      { rewrite Forall_forall in Hr. apply Hr. eapply nth_error_In, Hg. }
      assert (Hgc : g1 < c).
      { rewrite Forall_forall in Hc. apply Hc. eapply nth_error_In, Hg1. }
      unfold get2. pose proof Hm as [Hl _].
      rewrite (getitem_nth [] m) by lia. simpl.
      rewrite (getitem_nth d) by now rewrite (shape_row Hm Hgr). simpl.
      destruct (set2_spec d (to_float (nth g1 (nth g m []) d)) HC1 Ha Hb)
        as (C2 & E2 & HC2 & Hent2).
      exists C2. split; [assumption|]. split; [assumption|]. split.
      * intros i j Hi Hj. rewrite Hent2.
        replace (i =? a) with false by (symmetry; apply Nat.eqb_neq; lia).
        simpl. now apply Hold.
      * intros j Hj. rewrite Hent2, Nat.eqb_refl. simpl.
        destruct (j =? b) eqn:Ej.
        -- apply Nat.eqb_eq in Ej. subst j. unfold want, at2.
           now rewrite (nth_error_nth _ _ 0 Hg), (nth_error_nth _ _ 0 Hg1).
        -- apply Nat.eqb_neq in Ej. apply Hnew. lia.
    + rewrite length_enumerate in *. exists C'. split; [assumption|].
      split; [assumption|]. intros i j Hi Hj.
      destruct (Nat.eq_dec i a) as [->|Hne]; [now apply Hnew|].
      apply Hold; [lia | assumption].
  - rewrite E. f_equal. rewrite length_enumerate in Hent.
    apply (matrix_ext d HC (shape_map2d to_float (shape_submatrix d m ids ids))).
    intros i j Hi Hj.
    rewrite (at2_map2d d to_float (shape_submatrix d m ids ids) Hi Hj).
    rewrite at2_submatrix by assumption. now apply Hent.
Qed.

(** What [chop_in_blocks] returns on indices that are in range. *)
Lemma chop_in_blocks_ok (uninit : T) (n : nat) (m : matrix T) (ids : list nat) :
  shape n n m -> Forall (fun i => i < n) ids ->
  chop_in_blocks uninit to_float m ids
  = Ok (submatrix d m (kept n ids) (kept n ids),
        submatrix d m (kept n ids) ids,
        map2d to_float (submatrix d m ids ids)).
Proof.
  intros Hm Hin. unfold chop_in_blocks.
  rewrite (delete_rows_cols_spec Hm Hin Hin). simpl.
  rewrite (cross_block_spec Hm Hin Hin). simpl.
  rewrite (gather_loop_spec Hm Hin Hin); [reflexivity|].
  split; [apply repeat_length|].
  apply Forall_forall. intros row H. apply repeat_spec in H. subst row.
  apply repeat_length.
Qed.
End ChopFacts.

(** ** Claims about [chop_in_blocks] *)

(** C1, as the code has it.  For an [n] by [n] matrix [m] and [k]
    distinct indices [idtodelete] below [n], [chop_in_blocks] returns
    three blocks: [A],
    [n-k] by [n-k], is [m] on the kept rows and columns, the kept indices
    being the ascending complement of [idtodelete]; [B], [n-k] by [k],
    is [m] on the kept rows and the columns [idtodelete]; [C], [k] by
    [k], holds at [C[i,j]] the entry [m[idtodelete[i], idtodelete[j]]]
    converted to float64, in the order of [idtodelete], and so it holds
    that entry itself where the conversion leaves the entries of [m] as
    they are.  On [[1,2,3],[2,4,5],[3,5,6]] and [[1]] the blocks are
    [[1,3],[3,6]], [[2],[5]] and [[4]]. *)
Theorem chop_in_blocks_blocks :
  (forall (T : Type) (uninit d : T) (to_float : T -> T)
          (n : nat) (m : matrix T) (idtodelete : list nat),
      shape n n m -> valid n idtodelete ->
      let k := length idtodelete in
      let keep := kept n idtodelete in
      StronglySorted lt keep /\
      (forall i, In i keep <-> i < n /\ ~ In i idtodelete) /\
      exists A B C,
        chop_in_blocks uninit to_float m idtodelete = Ok (A, B, C) /\
        shape (n - k) (n - k) A /\ A = submatrix d m keep keep /\
        shape (n - k) k B /\ B = submatrix d m keep idtodelete /\
        shape k k C /\
        (forall i j, i < k -> j < k ->
                     at2 d C i j
                     = to_float (at2 d m (nth i idtodelete 0) (nth j idtodelete 0))) /\
        ((forall i j, i < n -> j < n -> to_float (at2 d m i j) = at2 d m i j) ->
         forall i j, i < k -> j < k ->
                     at2 d C i j = at2 d m (nth i idtodelete 0) (nth j idtodelete 0)))
  /\ chop_in_blocks 0%Z Zfloat [[1;2;3];[2;4;5];[3;5;6]]%Z [1]
     = Ok ([[1;3];[3;6]], [[2];[5]], [[4]])%Z.
Proof.
  split; [|reflexivity].
  intros T uninit d to_float n m ids Hm Hv k keep.
  split; [apply kept_ascending|]. split; [apply in_kept|].
  exists (submatrix d m keep keep), (submatrix d m keep ids),
         (map2d to_float (submatrix d m ids ids)).
  pose proof (length_kept Hv) as Hk. fold keep k in Hk.
  assert (HC : forall i j, i < k -> j < k ->
                 at2 d (map2d to_float (submatrix d m ids ids)) i j
                 = to_float (at2 d m (nth i ids 0) (nth j ids 0))).
  { intros i j Hi Hj.
    rewrite (at2_map2d d to_float (shape_submatrix d m ids ids) Hi Hj).
    now rewrite at2_submatrix. }
  split; [apply chop_in_blocks_ok; [assumption | apply Hv]|].
  split; [rewrite <- Hk; apply shape_submatrix|]. split; [reflexivity|].
  split; [rewrite <- Hk; apply (shape_submatrix d m keep ids)|].
  split; [reflexivity|].
  split; [apply shape_map2d, (shape_submatrix d m ids ids)|].
  split; [exact HC|].
  intros Hfix i j Hi Hj. rewrite (HC i j Hi Hj). destruct Hv as [_ Hin].
  rewrite Forall_forall in Hin.
  apply Hfix; apply Hin, nth_In; assumption.
Qed.

Lemma chop_in_blocks_blocks_witness :
  shape 3 3 [[1;2;3];[2;4;5];[3;5;6]]%Z /\ valid 3 [1] /\
  exists A B C,
    chop_in_blocks 0%Z Zfloat [[1;2;3];[2;4;5];[3;5;6]]%Z [1] = Ok (A, B, C) /\
    shape 2 2 A /\ A = [[1;3];[3;6]]%Z /\
    shape 2 1 B /\ B = [[2];[5]]%Z /\
    shape 1 1 C /\
    (forall i j, i < 1 -> j < 1 -> at2 0%Z C i j = 4%Z).
Proof.
  assert (Hm : shape 3 3 [[1;2;3];[2;4;5];[3;5;6]]%Z)
    by (split; [reflexivity | repeat constructor]).
  assert (Hv : valid 3 [1]).
  { split; [constructor; [intros [] | constructor] | repeat constructor]. }
  split; [exact Hm|]. split; [exact Hv|].
  destruct (proj1 chop_in_blocks_blocks Z 0%Z 0%Z Zfloat 3 _ _ Hm Hv)
    as (_ & _ & A & B & C & E & HA & EA & HB & EB & HC & HCe & _).
  exists A, B, C.
  split; [exact E|]. split; [exact HA|]. split; [exact EA|].
  split; [exact HB|]. split; [exact EB|]. split; [exact HC|].
  intros i j Hi Hj. rewrite (HCe i j Hi Hj).
  destruct i; [|lia]. destruct j; [|lia]. reflexivity.
Defined.

(** C1, as stated, fails where the conversion to float64 changes an
    entry: [C[i,j]] is not [m[idtodelete[i], idtodelete[j]]] when that
    entry is the integer [2^53 + 1], which is rounded to [2^53], or the
    complex number [3 + 5i], which loses its imaginary part. *)
Lemma chop_in_blocks_C_converted :
  (let m := [[1; 2]; [2; 9007199254740993]]%Z in
   shape 2 2 m /\ valid 2 [1] /\
   exists A B C,
     chop_in_blocks 0%Z Zfloat m [1] = Ok (A, B, C) /\
     at2 0%Z C 0 0 = 9007199254740992%Z /\
     at2 0%Z C 0 0 <> at2 0%Z m (nth 0 [1] 0) (nth 0 [1] 0))
  /\
  (let m := [[(1, 0); (2, 0)]; [(2, 0); (3, 5)]]%Z in
   shape 2 2 m /\ valid 2 [1] /\
   exists A B C,
     chop_in_blocks (0, 0)%Z Cfloat m [1] = Ok (A, B, C) /\
     at2 (0, 0)%Z C 0 0 = (3, 0)%Z /\
     at2 (0, 0)%Z C 0 0 <> at2 (0, 0)%Z m (nth 0 [1] 0) (nth 0 [1] 0)).
Proof.
  assert (Hv : valid 2 [1]).
  { split; [constructor; [intros [] | constructor] | repeat constructor]. }
  split; cbv zeta.
  - split; [split; [reflexivity | repeat constructor]|]. split; [exact Hv|].
    eexists _, _, _. split; [vm_compute; reflexivity|].
    split; [reflexivity | discriminate].
  - split; [split; [reflexivity | repeat constructor]|]. split; [exact Hv|].
    eexists _, _, _. split; [vm_compute; reflexivity|].
    split; [reflexivity | discriminate].
Qed.

(** ** Writing a reduced array back at the kept positions *)

Lemma index_of_Some (x : nat) (l : list nat) (i : nat) :
  index_of x l = Some i -> i < length l /\ nth i l 0 = x.
Proof.
  revert i. induction l as [|y l IH]; simpl; intros i H; [discriminate|].
  destruct (x =? y) eqn:E.
  - injection H as <-. apply Nat.eqb_eq in E. split; [lia | now subst].
  - destruct (index_of x l) as [i'|]; simpl in H; [|discriminate].
    injection H as <-. destruct (IH i' eq_refl). split; [lia | assumption].
Qed.

Lemma index_of_None (x : nat) (l : list nat) :
  index_of x l = None <-> ~ In x l.
Proof.
  induction l as [|y l IH]; simpl; [tauto|].
  destruct (x =? y) eqn:E.
  - apply Nat.eqb_eq in E. split; [discriminate | intros H; exfalso; apply H; now left].
  - apply Nat.eqb_neq in E. destruct (index_of x l); simpl.
    + split; [discriminate|]. intros H. exfalso. apply H. right.
      destruct (In_dec Nat.eq_dec x l) as [|Hn]; [assumption|].
      apply IH in Hn. discriminate.
    + split; [|reflexivity]. intros _ [H|H]; [congruence|].
      now apply (proj1 IH).
Qed.

Lemma index_of_nth (l : list nat) (i : nat) :
  NoDup l -> i < length l -> index_of (nth i l 0) l = Some i.
Proof.
  revert i. induction l as [|y l IH]; simpl; intros i Hnd Hi; [lia|].
  inversion Hnd as [|? ? Hy Hnd']; subst.
  destruct i as [|i]; [now rewrite Nat.eqb_refl|].
  assert (Hi' : i < length l) by lia.
  replace (nth i l 0 =? y) with false.
  - now rewrite (IH i Hnd' Hi').
  - symmetry. apply Nat.eqb_neq. intros E. apply Hy. rewrite <- E. now apply nth_In.
Qed.

Lemma nth_map_seq {A : Type} (d : A) (f : nat -> A) (n p : nat) :
  p < n -> nth p (map f (seq 0 n)) d = f p.
Proof.
  intros H. rewrite (nth_indep _ d (f 0)) by now rewrite length_map, length_seq.
  rewrite (map_nth f (seq 0 n) 0 p). now rewrite seq_nth.
Qed.

Lemma shape_tabulate {A : Type} (r c : nat) (f : nat -> nat -> A) :
  shape r c (tabulate r c f).
Proof.
  split; [unfold tabulate; now rewrite length_map, length_seq|].
  apply Forall_forall. intros row H. apply in_map_iff in H as (i & <- & _).
  now rewrite length_map, length_seq.
Qed.

Lemma at2_tabulate {A : Type} (d : A) (r c : nat) (f : nat -> nat -> A) (i j : nat) :
  i < r -> j < c -> at2 d (tabulate r c f) i j = f i j.
Proof.
  intros Hi Hj. unfold tabulate, at2.
  rewrite (nth_indep _ [] (map (fun j => f 0 j) (seq 0 c)))
    by now rewrite length_map, length_seq.
  rewrite (map_nth (fun i => map (fun j => f i j) (seq 0 c)) (seq 0 r) 0 i).
  rewrite seq_nth by assumption. simpl.
  rewrite (nth_indep _ d (f i 0)) by now rewrite length_map, length_seq.
  rewrite (map_nth (fun j => f i j) (seq 0 c) 0 j).
  now rewrite seq_nth.
Qed.

Lemma tabulate_at2 {A : Type} (d : A) (r c : nat) (m : list (list A)) :
  shape r c m -> m = tabulate r c (at2 d m).
Proof.
  intros Hm. apply (matrix_ext d Hm (shape_tabulate r c _)).
  intros i j Hi Hj. now rewrite at2_tabulate.
Qed.

Lemma shape_full {A : Type} (r c : nat) (x : A) : shape r c (full r c x).
Proof.
  split; [apply repeat_length|].
  apply Forall_forall. intros row H. apply repeat_spec in H. subst row.
  apply repeat_length.
Qed.

Lemma at2_full {A : Type} (d : A) (r c : nat) (x : A) (i j : nat) :
  i < r -> j < c -> at2 d (full r c x) i j = x.
Proof.
  intros Hi Hj. unfold at2, full.
  rewrite (nth_indep _ [] (repeat x c)) by now rewrite repeat_length.
  rewrite nth_repeat.
  rewrite (nth_indep _ d x) by now rewrite repeat_length.
  apply nth_repeat.
Qed.

Section FillFacts.
Variable T : Type.
Variable d : T.

Lemma fill_kept_vector_spec (cast : T -> T) (va : vector T) (ind : list nat)
      (newv : vector T) :
  NoDup ind -> Forall (fun p => p < length newv) ind -> length ind <= length va ->
  fill_kept_vector cast va ind newv = Ok (placed_vector d (map cast va) ind newv).
Proof.
  intros Hnd Hin Hlen. unfold fill_kept_vector.
  match goal with |- foldM ?f _ _ = _ =>
    destruct (foldM_inv
      (fun a v => length v = length newv /\
                  forall p, nth p v d
                            = match index_of p ind with
                              | Some j => if j <? a then cast (nth j va d)
                                          else nth p newv d
                              | None => nth p newv d
                              end)
      f (enumerate ind) newv) as (v & E & Hl & Hent)
  end.
  - split; [reflexivity|]. intros p. now destruct (index_of p ind).
  - intros a [a' g] v Hnth [Hl Hent].
    apply nth_error_enumerate in Hnth as (Ea & Hg & Ha). simpl in Ea, Hg. subst a'.
    assert (Hgn : g < length newv).
    { rewrite Forall_forall in Hin. apply Hin. eapply nth_error_In, Hg. }
    rewrite (getitem_nth d) by lia. simpl.
    rewrite setitem_ok by lia. eexists. split; [reflexivity|].
    split; [now rewrite length_upd|].
    intros p. rewrite nth_upd by lia.
    pose proof (nth_error_nth _ _ 0 Hg) as Eg.
    destruct (p =? g) eqn:Ep.
    + apply Nat.eqb_eq in Ep. subst p. rewrite <- Eg, index_of_nth by assumption.
      replace (a <? S a) with true by (symmetry; apply Nat.ltb_lt; lia).
      reflexivity.
    + apply Nat.eqb_neq in Ep. rewrite Hent.
      destruct (index_of p ind) as [j|] eqn:Ej; [|reflexivity].
      apply index_of_Some in Ej as [Hj Ejp].
      assert (j <> a) by (intros ->; congruence).
      destruct (j <? a) eqn:E1, (j <? S a) eqn:E2; try reflexivity;
        [apply Nat.ltb_lt in E1; apply Nat.ltb_ge in E2
        |apply Nat.ltb_ge in E1; apply Nat.ltb_lt in E2]; lia.
  - rewrite E. f_equal. rewrite length_enumerate in Hent.
    apply (nth_ext _ _ d d).
    + unfold placed_vector. now rewrite length_map, length_seq.
    + intros p Hp. rewrite Hent. unfold placed_vector.
      rewrite nth_map_seq by lia.
      destruct (index_of p ind) as [j|] eqn:Ej; [|reflexivity].
      apply index_of_Some in Ej as [Hj _].
      replace (j <? length ind) with true by (symmetry; now apply Nat.ltb_lt).
      rewrite (nth_indep (map cast va) d (cast d)) by (rewrite length_map; lia).
      symmetry. apply (map_nth cast).
Qed.

Lemma fill_kept_spec (cast : T -> T) (a n : nat) (A : matrix T) (ind : list nat)
      (newmat : matrix T) :
  shape a a A -> length ind <= a ->
  NoDup ind -> Forall (fun p => p < n) ind -> shape n n newmat ->
  fill_kept cast A ind newmat = Ok (placed_matrix d n (map2d cast A) ind newmat).
Proof.
  intros HA Hlen Hnd Hin Hnew. unfold fill_kept.
  set (old := at2 d newmat).
  set (pos := fun i1 j1 => (index_of i1 ind, index_of j1 ind)).
  match goal with |- foldM ?f _ _ = _ =>
    destruct (foldM_inv
      (fun r M => shape n n M /\
                  forall i1 j1, at2 d M i1 j1
                                = match pos i1 j1 with
                                  | (Some i, Some j) =>
                                      if i <? r then cast (at2 d A i j)
                                      else old i1 j1
                                  | _ => old i1 j1
                                  end)
      f (enumerate ind) newmat) as (M & E & HM & Hent)
  end.
  - split; [assumption|]. intros i1 j1. unfold pos.
    now destruct (index_of i1 ind), (index_of j1 ind).
  - intros r [r' g] M Hnth [HM Hent].
    apply nth_error_enumerate in Hnth as (Er & Hg & Hr). simpl in Er, Hg. subst r'.
    pose proof (nth_error_nth _ _ 0 Hg) as Eg.
    assert (Hgn : g < n).
    { rewrite Forall_forall in Hin. apply Hin. eapply nth_error_In, Hg. }
    match goal with |- exists _, foldM ?f _ _ = _ /\ _ =>
      destruct (foldM_inv
        (fun c M' => shape n n M' /\
                     forall i1 j1, at2 d M' i1 j1
                                   = match pos i1 j1 with
                                     | (Some i, Some j) =>
                                         if (i <? r) || ((i =? r) && (j <? c))
                                         then cast (at2 d A i j) else old i1 j1
                                     | _ => old i1 j1
                                     end)
        f (enumerate ind) M) as (M' & E' & HM' & Hent')
    end.
    + split; [assumption|]. intros i1 j1. rewrite Hent.
      destruct (pos i1 j1) as [[i|] [j|]]; try reflexivity.
      now rewrite andb_false_r, orb_false_r.
    + intros c [c' g1] M1 Hnth1 [HM1 Hent1].
      apply nth_error_enumerate in Hnth1 as (Ec & Hg1 & Hc).
      simpl in Ec, Hg1. subst c'.
      pose proof (nth_error_nth _ _ 0 Hg1) as Eg1.
      assert (Hg1n : g1 < n).
      { rewrite Forall_forall in Hin. apply Hin. eapply nth_error_In, Hg1. }
      unfold get2. pose proof HA as [HlA _].
      rewrite (getitem_nth [] A) by lia. simpl.
      rewrite (getitem_nth d)
        by (rewrite (@shape_row _ a a A r HA); lia). simpl.
      destruct (set2_spec d (cast (nth c (nth r A []) d)) HM1 Hgn Hg1n)
        as (M2 & E2 & HM2 & Hent2).
      exists M2. split; [assumption|]. split; [assumption|].
      intros i1 j1. rewrite Hent2, Hent1. unfold pos.
      destruct (andb (i1 =? g) (j1 =? g1)) eqn:Eb.
      * apply andb_true_iff in Eb as [E1 E3].
        apply Nat.eqb_eq in E1, E3. subst i1 j1.
        rewrite <- Eg, <- Eg1, !index_of_nth by assumption.
        rewrite Nat.eqb_refl.
        replace (c <? S c) with true by (symmetry; apply Nat.ltb_lt; lia).
        now rewrite orb_true_r.
      * destruct (index_of i1 ind) as [i|] eqn:Ei; [|reflexivity].
        destruct (index_of j1 ind) as [j|] eqn:Ej; [|reflexivity].
        apply index_of_Some in Ei as [_ Ei], Ej as [_ Ej].
        replace ((i =? r) && (j <? S c)) with ((i =? r) && (j <? c)); [reflexivity|].
        destruct (i =? r) eqn:Eir; [|reflexivity]. simpl.
        apply Nat.eqb_eq in Eir. subst i.
        assert (Hjc : j <> c).
        { intros ->. rewrite <- Ei, <- Ej, Eg, Eg1, !Nat.eqb_refl in Eb. discriminate. }
        destruct (j <? c) eqn:E1, (j <? S c) eqn:E3; try reflexivity;
          [apply Nat.ltb_lt in E1; apply Nat.ltb_ge in E3
          |apply Nat.ltb_ge in E1; apply Nat.ltb_lt in E3]; lia.
    + rewrite length_enumerate in *. exists M'. split; [assumption|].
      split; [assumption|]. intros i1 j1. rewrite Hent'.
      destruct (pos i1 j1) as [[i|] [j|]] eqn:Ep; try reflexivity.
      unfold pos in Ep. injection Ep as Ei Ej.
      apply index_of_Some in Ej as [Hj _].
      replace (j <? length ind) with true by (symmetry; now apply Nat.ltb_lt).
      rewrite andb_true_r.
      replace ((i <? r) || (i =? r)) with (i <? S r); [reflexivity|].
      destruct (i <? S r) eqn:E1, (i <? r) eqn:E3, (i =? r) eqn:E4;
        try reflexivity; exfalso;
        repeat match goal with
               | H : (_ <? _) = true |- _ => apply Nat.ltb_lt in H
               | H : (_ <? _) = false |- _ => apply Nat.ltb_ge in H
               | H : (_ =? _) = true |- _ => apply Nat.eqb_eq in H
               | H : (_ =? _) = false |- _ => apply Nat.eqb_neq in H
               end; lia.
  - rewrite E. f_equal. rewrite length_enumerate in Hent.
    apply (matrix_ext d HM (shape_tabulate n n _)).
    intros i1 j1 Hi Hj. unfold placed_matrix. rewrite at2_tabulate by assumption.
    rewrite Hent. unfold pos.
    destruct (index_of i1 ind) as [i|] eqn:Ei; [|reflexivity].
    destruct (index_of j1 ind) as [j|] eqn:Ej; [|reflexivity].
    apply index_of_Some in Ei as [Hi' _], Ej as [Hj' _].
    replace (i <? length ind) with true by (symmetry; now apply Nat.ltb_lt).
    symmetry. apply (at2_map2d d cast HA); lia.
Qed.

(** The loop that writes [1.0] on the diagonal at the deleted indices. *)
Lemma diag_loop_spec (one : T) (n : nat) (ids : list nat) (newmat : matrix T) :
  shape n n newmat -> Forall (fun i => i < n) ids ->
  foldM (fun newmat i => set2 newmat i i one) ids newmat
  = Ok (tabulate n n (fun i j => if (i =? j) && mem i ids then one
                                 else at2 d newmat i j)).
Proof.
  revert newmat. induction ids as [|g ids IH]; intros newmat Hm Hin; simpl.
  - f_equal. rewrite (tabulate_at2 d Hm) at 1. unfold tabulate.
    apply map_ext. intros i. apply map_ext. intros j.
    now rewrite andb_false_r.
  - inversion Hin as [|? ? Hg Hin']; subst.
    destruct (set2_spec d one Hm Hg Hg) as (M & E & HM & Hent).
    rewrite E. simpl. rewrite (IH M HM Hin'). f_equal.
    unfold tabulate. apply map_ext. intros i. apply map_ext. intros j.
    rewrite Hent.
    destruct (i =? j) eqn:Eij; simpl.
    + apply Nat.eqb_eq in Eij. subst j.
      destruct (mem i ids); simpl; [now rewrite orb_true_r|].
      rewrite orb_false_r. now destruct (i =? g).
    + destruct (i =? g) eqn:Eig; simpl; [|reflexivity].
      apply Nat.eqb_eq in Eig. subst g. rewrite (Nat.eqb_sym j i), Eij.
      reflexivity.
Qed.

Lemma reassemble_ok (zero one : T) (to_float : T -> T)
      (set_minus : nat -> list nat -> list nat)
      (a : nat) (A : matrix T) (ids : list nat) :
  let n := a + length ids in
  let ind := set_minus n ids in
  shape a a A -> Forall (fun i => i < n) ids ->
  NoDup ind -> Forall (fun p => p < n) ind -> length ind <= a ->
  reassemble zero one to_float set_minus A ids
  = Ok (reassembled d zero one n (map2d to_float A) ind ids).
Proof.
  intros n ind HA Hids Hnd Hin Hlen. unfold reassemble.
  pose proof HA as [HlA _]. rewrite HlA. fold n ind.
  rewrite (fill_kept_spec to_float HA Hlen Hnd Hin (shape_full n n zero)). simpl.
  rewrite (@diag_loop_spec one n ids
             (placed_matrix d n (map2d to_float A) ind (full n n zero))
             (shape_tabulate n n _) Hids). f_equal.
  unfold reassembled, tabulate.
  apply map_ext_in. intros i1 Hi. apply map_ext_in. intros j1 Hj.
  apply in_seq in Hi, Hj.
  destruct ((i1 =? j1) && mem i1 ids); [reflexivity|].
  unfold placed_matrix. rewrite at2_tabulate by lia.
  destruct (index_of i1 ind), (index_of j1 ind); try reflexivity;
    apply at2_full; lia.
Qed.
End FillFacts.

(** ** The order of the kept indices *)

Lemma valid_length (n : nat) (ids : list nat) : valid n ids -> length ids <= n.
Proof.
  intros [Hnd Hin]. rewrite <- (length_seq n 0).
  apply NoDup_incl_length; [assumption|].
  intros x Hx. apply in_seq. rewrite Forall_forall in Hin.
  specialize (Hin x Hx). simpl in Hin. lia.
Qed.

(** What follows from the set holding exactly the kept indices. *)
Lemma order_facts (n : nat) (ids ind : list nat) :
  valid n ids -> Permutation ind (kept n ids) ->
  NoDup ind /\ Forall (fun p => p < n) ind /\ length ind = n - length ids /\
  forall x, In x ind <-> x < n /\ ~ In x ids.
Proof.
  intros Hv Hp.
  assert (Hin : forall x, In x ind <-> x < n /\ ~ In x ids).
  { intros x. rewrite <- in_kept. split; apply Permutation_in;
      [assumption | now apply Permutation_sym]. }
  split; [|split; [|split]].
  - apply (Permutation_NoDup (Permutation_sym Hp)), NoDup_kept.
  - apply Forall_forall. intros x Hx. now apply Hin.
  - rewrite (Permutation_length Hp). now apply length_kept.
  - assumption.
Qed.

Lemma tabulate_ext {A : Type} (r c : nat) (f g : nat -> nat -> A) :
  (forall i j, i < r -> j < c -> f i j = g i j) -> tabulate r c f = tabulate r c g.
Proof.
  intros H. unfold tabulate.
  apply map_ext_in. intros i Hi. apply map_ext_in. intros j Hj.
  apply in_seq in Hi, Hj. apply H; lia.
Qed.

Lemma combine_repeat {A B : Type} (l : list A) (x : B) :
  combine l (repeat x (length l)) = map (fun a => (a, x)) l.
Proof.
  induction l as [|a l IH]; simpl; [reflexivity | now rewrite IH].
Qed.

Lemma mapM_id {A : Type} (f : A -> result A) (l : list A) :
  (forall x, In x l -> f x = Ok x) -> mapM f l = Ok l.
Proof.
  intros H. rewrite (mapM_map f (fun x => x) l H). now rewrite map_id.
Qed.

Lemma broadcast_same {A : Type} (l : list A) : broadcast l (length l) = Ok l.
Proof. unfold broadcast. now rewrite Nat.eqb_refl. Qed.

Section ReassembleFacts.
Variable T : Type.
Variables zero one d : T.
Variables to_float to_complex : T -> T.
Variable set_minus : nat -> list nat -> list nat.

Lemma reassemble_valid (n : nat) (A : matrix T) (ids : list nat) :
  valid n ids -> shape (n - length ids) (n - length ids) A ->
  Permutation (set_minus n ids) (kept n ids) ->
  reassemble zero one to_float set_minus A ids
  = Ok (reassembled d zero one n (map2d to_float A) (set_minus n ids) ids).
Proof.
  intros Hv HA Hp.
  pose proof (valid_length Hv) as Hk.
  destruct (order_facts Hv Hp) as (Hnd & Hin & Hlen & _).
  assert (En : n - length ids + length ids = n) by lia.
  pose proof (@reassemble_ok T d zero one to_float set_minus (n - length ids) A ids) as H.
  simpl in H. rewrite En in H. apply H; try assumption; [apply Hv | lia].
Qed.

(** On the identity template the kept block and the diagonal ones give
    the same matrix as [reassemble]'s zeros and diagonal loop. *)
Lemma placed_eye (n : nat) (A : matrix T) (ids ind : list nat) :
  (forall x, In x ind <-> x < n /\ ~ In x ids) ->
  placed_matrix d n A ind (eye zero one n) = reassembled d zero one n A ind ids.
Proof.
  intros Hin. apply tabulate_ext. intros i1 j1 Hi Hj.
  change (eye zero one n) with (tabulate n n (fun i j => if i =? j then one else zero)).
  rewrite at2_tabulate by assumption.
  destruct (i1 =? j1) eqn:Eij; simpl.
  - apply Nat.eqb_eq in Eij. subst j1.
    destruct (mem i1 ids) eqn:Em.
    + apply mem_In in Em.
      assert (En : index_of i1 ind = None).
      { apply index_of_None. intros Hx. now apply Hin in Hx. }
      now rewrite En.
    + apply mem_not_In in Em.
      destruct (index_of i1 ind) eqn:En; [reflexivity|].
      apply index_of_None in En. exfalso. apply En, Hin. now split.
  - now destruct (index_of i1 ind), (index_of j1 ind).
Qed.

Lemma reassemble_multi_ok (n : nat) (A : batch T) (ids : list nat) :
  valid n ids -> 0 < n - length ids -> A <> [] ->
  Forall (shape (n - length ids) (n - length ids)) A ->
  Permutation (set_minus n ids) (kept n ids) ->
  reassemble_multi zero one to_complex set_minus A ids
  = Ok (map (fun s => reassembled d zero one n (map2d to_complex s) (set_minus n ids) ids)
            A).
Proof.
  intros Hv Ha Hne HA Hp.
  pose proof (valid_length Hv) as Hk.
  destruct (order_facts Hv Hp) as (Hnd & Hin & Hlen & Hmem).
  rewrite Forall_forall in HA. unfold reassemble_multi.
  rewrite (mapM_map (fun s => get2 s 0 0) (fun s => at2 d s 0 0)).
  2:{ intros s Hs. specialize (HA s Hs). unfold get2. pose proof HA as [Hl _].
      rewrite (getitem_nth [] s) by lia. simpl.
      apply getitem_nth. rewrite (shape_row HA Ha). lia. }
  cbn [bind]. rewrite length_map.
  destruct A as [|A0 A']; [congruence|]. cbn [getitem nth_error bind].
  assert (E0 : length A0 + length ids = n).
  { destruct (HA A0 (or_introl eq_refl)) as [Hl _]. lia. }
  rewrite E0.
  rewrite mapM_id.
  2:{ intros s Hs. specialize (HA s Hs). destruct HA as [Hl Hrows].
      rewrite Hlen, <- Hl, broadcast_same. simpl.
      apply mapM_id. intros row Hrow. rewrite Forall_forall in Hrows.
      rewrite Hl, <- (Hrows row Hrow). apply broadcast_same. }
  cbn [bind]. rewrite combine_repeat, mapM_compose.
  apply mapM_map. intros s Hs. specialize (HA s Hs).
  rewrite (@fill_kept_spec T d to_complex (n - length ids) n s (set_minus n ids));
    try assumption; [|lia|apply (shape_tabulate n n)].
  f_equal. now apply placed_eye.
Qed.
End ReassembleFacts.

(** ** Claims about [reassemble] *)

Lemma reassembled_fill {T : Type} (d zero one : T) (n : nat) (A : matrix T)
      (ids ind : list nat) :
  valid n ids -> (forall x, In x ind <-> x < n /\ ~ In x ids) ->
  fill_convention d zero one n ids (reassembled d zero one n A ind ids).
Proof.
  intros [_ Hin] Hmem. rewrite Forall_forall in Hin.
  split; [apply shape_tabulate|]. split.
  - intros i Hi. pose proof (Hin i Hi) as Hn. simpl in Hn.
    unfold reassembled. rewrite at2_tabulate by assumption.
    rewrite Nat.eqb_refl. apply mem_In in Hi. now rewrite Hi.
  - intros i j Hi Hj Hne Hdel.
    unfold reassembled. rewrite at2_tabulate by assumption.
    apply Nat.eqb_neq in Hne. rewrite Hne. simpl.
    assert (Hnone : forall x, In x ids -> index_of x ind = None).
    { intros x Hx. apply index_of_None. intros H. now apply Hmem in H. }
    destruct Hdel as [H|H]; rewrite (Hnone _ H); [reflexivity|].
    now destruct (index_of i ind).
Qed.

(** C3.  For [k] distinct indices [idtodelete] below [n] and every
    [n-k] by [n-k] matrix [A], the matrix returned by [reassemble], and
    every slice returned by [reassemble_multi], has [1.0] at each diagonal
    position with a deleted index and [0] at each off-diagonal position
    with a deleted row or column index, whatever [A] holds.  [reassemble]
    returns on every such input; [reassemble_multi] returns on every
    non-empty batch of non-empty matrices. *)
Theorem reassemble_fill_convention :
  forall (T : Type) (zero one d : T) (to_float to_complex : T -> T)
         (set_minus : nat -> list nat -> list nat)
         (n : nat) (idtodelete : list nat),
    valid n idtodelete ->
    Permutation (set_minus n idtodelete) (kept n idtodelete) ->
    let k := length idtodelete in
    (forall A : matrix T,
        shape (n - k) (n - k) A ->
        exists M, reassemble zero one to_float set_minus A idtodelete = Ok M /\
                  fill_convention d zero one n idtodelete M) /\
    (forall (A : batch T) (M : batch T),
        Forall (shape (n - k) (n - k)) A ->
        reassemble_multi zero one to_complex set_minus A idtodelete = Ok M ->
        Forall (fill_convention d zero one n idtodelete) M) /\
    (forall A : batch T,
        0 < n - k -> A <> [] -> Forall (shape (n - k) (n - k)) A ->
        exists M, reassemble_multi zero one to_complex set_minus A idtodelete = Ok M /\
                  length M = length A).
Proof.
  intros T zero one d to_float to_complex set_minus n ids Hv Hp k.
  destruct (order_facts Hv Hp) as (_ & _ & _ & Hmem).
  split; [|split].
  - intros A HA. eexists.
    split; [apply (reassemble_valid zero one d to_float set_minus Hv HA Hp)|].
    now apply reassembled_fill.
  - intros A M HA E.
    destruct (Nat.eq_dec (n - k) 0) as [E0|Hpos].
    + exfalso. destruct A as [|s A]; [discriminate|].
      inversion HA as [|? ? Hs _]; subst. destruct Hs as [Hl _].
      fold k in Hl. rewrite E0 in Hl. destruct s; [|discriminate].
      discriminate.
    + assert (Hne : A <> []) by (intros ->; discriminate E).
      rewrite (reassemble_multi_ok zero one d to_complex set_minus Hv) in E;
        [|fold k; lia|assumption|assumption|assumption].
      injection E as <-. apply Forall_forall. intros M HM.
      apply in_map_iff in HM as (s' & <- & _). now apply reassembled_fill.
  - intros A Hpos Hne HA.
    rewrite (reassemble_multi_ok zero one d to_complex set_minus Hv); try assumption.
    eexists. split; [reflexivity | apply length_map].
Qed.

Lemma reassemble_fill_convention_witness :
  valid 3 [1] /\ Permutation (CPython.set_minus 3 [1]) (kept 3 [1]) /\
  exists M, reassemble 0%Z 1%Z Zfloat CPython.set_minus [[1;3];[3;6]]%Z [1] = Ok M /\
            fill_convention 0%Z 0%Z 1%Z 3 [1] M.
Proof.
  assert (Hv : valid 3 [1]).
  { split; [constructor; [intros [] | constructor] | repeat constructor]. }
  assert (Hp : Permutation (CPython.set_minus 3 [1]) (kept 3 [1])).
  { vm_compute. apply Permutation_refl. }
  split; [exact Hv|]. split; [exact Hp|].
  apply (proj1 (@reassemble_fill_convention Z 0%Z 1%Z 0%Z Zfloat Zfloat
                  CPython.set_minus 3 [1] Hv Hp)).
  split; [reflexivity | repeat constructor].
Defined.

(** ** The vector and batched operations on indices in range *)

Section BatchFacts.
Variable T : Type.
Variables zero one d : T.
Variables to_float to_complex : T -> T.
Variable set_minus : nat -> list nat -> list nat.

Lemma chop_in_blocks_vector_ok (v : vector T) (ids : list nat) :
  Forall (fun i => i < length v) ids ->
  Forall (fun i => i < length v) (set_minus (length v) ids) ->
  chop_in_blocks_vector set_minus v ids
  = Ok (map (fun i => nth i v d) (set_minus (length v) ids),
        map (fun i => nth i v d) ids).
Proof.
  intros Hids Hind. unfold chop_in_blocks_vector.
  rewrite (take_nth d v Hind). cbn [bind].
  now rewrite (take_nth d v Hids).
Qed.

Lemma chop_in_blocks_vector_multi_ok (n : nat) (v : list (vector T)) (ids : list nat) :
  v <> [] -> Forall (fun row => length row = n) v ->
  Forall (fun i => i < n) ids -> Forall (fun i => i < n) (set_minus n ids) ->
  chop_in_blocks_vector_multi set_minus v ids
  = Ok (map (fun row => map (fun i => nth i row d) (set_minus n ids)) v,
        map (fun row => map (fun i => nth i row d) ids) v).
Proof.
  intros Hne Hv Hids Hind. unfold chop_in_blocks_vector_multi.
  rewrite Forall_forall in Hv.
  destruct v as [|v0 v'] eqn:Ev; [congruence|].
  cbn [getitem nth_error bind]. rewrite (Hv v0 (or_introl eq_refl)).
  rewrite <- Ev in *.
  rewrite (mapM_map (fun row => take row (set_minus n ids))
                    (fun row => map (fun i => nth i row d) (set_minus n ids))).
  2:{ intros row Hrow. apply take_nth. now rewrite (Hv row Hrow). }
  cbn [bind].
  rewrite (mapM_map (fun row => take row ids)
                    (fun row => map (fun i => nth i row d) ids)).
  2:{ intros row Hrow. apply take_nth. now rewrite (Hv row Hrow). }
  reflexivity.
Qed.

Lemma chop_in_blocks_multi_ok (n : nat) (m : batch T) (ids : list nat) :
  Forall (shape n n) m -> Forall (fun i => i < n) ids ->
  chop_in_blocks_multi m ids
  = Ok (map (fun s => submatrix d s (kept n ids) (kept n ids)) m,
        map (fun s => submatrix d s (kept n ids) ids) m,
        map (fun s => submatrix d s ids ids) m).
Proof.
  intros Hm Hids. unfold chop_in_blocks_multi. rewrite Forall_forall in Hm.
  rewrite (mapM_map (fun s => np_delete s ids)
                    (fun s => map (fun i => nth i s []) (kept n ids))).
  2:{ intros s Hs. destruct (Hm s Hs) as [Hl _].
      rewrite (np_delete_kept [] s) by now rewrite Hl. now rewrite Hl. }
  cbn [bind]. rewrite mapM_compose.
  rewrite (mapM_map _ (fun s => submatrix d s (kept n ids) (kept n ids))).
  2:{ intros s Hs. pose proof (Hm s Hs) as Hsh. pose proof Hsh as [Hl _].
      pose proof (delete_rows_cols_spec d Hsh Hids Hids) as E.
      unfold delete_rows_cols in E.
      rewrite (np_delete_kept [] s) in E by now rewrite Hl.
      now rewrite Hl in E. }
  cbn [bind].
  rewrite (mapM_map (mapM (fun row => take row ids))
                    (fun s => map (fun row => map (fun j => nth j row d) ids) s)).
  2:{ intros s Hs. apply (take_cols_spec d (Hm s Hs) Hids). }
  cbn [bind]. rewrite mapM_compose.
  rewrite (mapM_map _ (fun s => submatrix d s (kept n ids) ids)).
  2:{ intros s Hs. pose proof (Hm s Hs) as Hsh.
      pose proof (cross_block_spec d Hsh Hids Hids) as E.
      unfold cross_block in E.
      now rewrite (take_cols_spec d Hsh Hids) in E. }
  cbn [bind].
  rewrite (mapM_map (fun s => take s ids) (fun s => map (fun i => nth i s []) ids)).
  2:{ intros s Hs. destruct (Hm s Hs) as [Hl _].
      apply take_nth. now rewrite Hl. }
  cbn [bind]. rewrite mapM_compose.
  rewrite (mapM_map _ (fun s => submatrix d s ids ids)).
  2:{ intros s Hs. pose proof (Hm s Hs) as Hsh. pose proof Hsh as [Hl _].
      pose proof (take_rows_cols_spec d Hsh Hids Hids) as E.
      rewrite (take_nth [] s) in E by now rewrite Hl.
      exact E. }
  reflexivity.
Qed.

Lemma reassemble_vector_ok (n : nat) (va : vector T) (ids : list nat) :
  valid n ids -> length va = n - length ids ->
  Permutation (set_minus n ids) (kept n ids) ->
  reassemble_vector zero to_float set_minus va ids
  = Ok (placed_vector d (map to_float va) (set_minus n ids) (repeat zero n)).
Proof.
  intros Hv Hva Hp. pose proof (valid_length Hv) as Hk.
  destruct (order_facts Hv Hp) as (Hnd & Hin & Hlen & _).
  unfold reassemble_vector.
  replace (length va + length ids) with n by lia.
  apply fill_kept_vector_spec; [assumption| |lia].
  now rewrite repeat_length.
Qed.

Lemma reassemble_vector_multi_ok (n : nat) (va : list (vector T)) (ids : list nat) :
  valid n ids -> 0 < n - length ids -> va <> [] ->
  Forall (fun row => length row = n - length ids) va ->
  Permutation (set_minus n ids) (kept n ids) ->
  reassemble_vector_multi zero to_complex set_minus va ids
  = Ok (map (fun row => placed_vector d (map to_complex row) (set_minus n ids)
                                      (repeat zero n)) va).
Proof.
  intros Hv Ha Hne Hva Hp. pose proof (valid_length Hv) as Hk.
  destruct (order_facts Hv Hp) as (Hnd & Hin & Hlen & _).
  rewrite Forall_forall in Hva. unfold reassemble_vector_multi.
  rewrite (mapM_map (fun row => getitem row 0) (fun row => nth 0 row d)).
  2:{ intros row Hrow. apply getitem_nth. rewrite (Hva row Hrow). lia. }
  cbn [bind]. rewrite length_map.
  destruct va as [|va0 va'] eqn:Ev; [congruence|].
  cbn [getitem nth_error bind]. rewrite (Hva va0 (or_introl eq_refl)).
  rewrite <- Ev in *.
  replace (n - length ids + length ids) with n by lia.
  rewrite mapM_id.
  2:{ intros row Hrow. rewrite Hlen, <- (Hva row Hrow). apply broadcast_same. }
  cbn [bind]. unfold full. rewrite combine_repeat, mapM_compose.
  apply mapM_map. intros row Hrow.
  apply fill_kept_vector_spec; [assumption| |rewrite (Hva row Hrow); lia].
  now rewrite repeat_length.
Qed.
End BatchFacts.

(** ** Claims about the batched operations *)

Lemma nth_error_map_Some {A B : Type} (f : A -> B) (l : list A) (i : nat) (x : A) :
  nth_error l i = Some x -> nth_error (map f l) i = Some (f x).
Proof.
  revert i. induction l as [|a l IH]; intros [|i] H; simpl in *; try discriminate.
  - now injection H as <-.
  - now apply IH.
Qed.

(** C5, as the code has it.  For a batch of [n] by [n] matrices and [k]
    distinct indices [idtodelete] below [n], the [B] block returned by
    [chop_in_blocks_multi] has the [idtodelete] rows removed: every slice
    is [n-k] by [k], the kept rows and the [idtodelete] columns of the
    input slice, and equals the [B] block [chop_in_blocks] returns on
    that slice. *)
Theorem chop_in_blocks_multi_B_rows_removed :
  forall (T : Type) (uninit d : T) (to_float : T -> T)
         (n : nat) (m : batch T) (idtodelete : list nat),
    Forall (shape n n) m -> valid n idtodelete ->
    let k := length idtodelete in
    exists A B C,
      chop_in_blocks_multi m idtodelete = Ok (A, B, C) /\
      length B = length m /\
      Forall (shape (n - k) k) B /\
      forall i s, nth_error m i = Some s ->
                  exists a b c,
                    chop_in_blocks uninit to_float s idtodelete = Ok (a, b, c) /\
                    nth_error B i = Some b /\
                    b = submatrix d s (kept n idtodelete) idtodelete.
Proof.
  intros T uninit d to_float n m ids Hm Hv k.
  pose proof Hv as [_ Hin].
  rewrite (chop_in_blocks_multi_ok d Hm Hin).
  eexists _, _, _. split; [reflexivity|]. split; [apply length_map|]. split.
  - apply Forall_forall. intros b Hb. apply in_map_iff in Hb as (s & <- & _).
    unfold k. rewrite <- (length_kept Hv). apply shape_submatrix.
  - intros i s Hs. rewrite Forall_forall in Hm.
    rewrite (chop_in_blocks_ok d to_float uninit (Hm s (nth_error_In _ _ Hs)) Hin).
    eexists _, _, _. split; [reflexivity|]. split; [|reflexivity].
    now apply (nth_error_map_Some (fun s => submatrix d s (kept n ids) ids)).
Qed.

Lemma chop_in_blocks_multi_B_rows_removed_witness :
  Forall (shape 3 3) [[[1;2;3];[2;4;5];[3;5;6]]]%Z /\ valid 3 [1] /\
  exists A B C,
    chop_in_blocks_multi [[[1;2;3];[2;4;5];[3;5;6]]]%Z [1] = Ok (A, B, C) /\
    length B = 1 /\ Forall (shape 2 1) B.
Proof.
  assert (Hm : Forall (shape 3 3) [[[1;2;3];[2;4;5];[3;5;6]]]%Z).
  { repeat constructor. }
  assert (Hv : valid 3 [1]).
  { split; [constructor; [intros [] | constructor] | repeat constructor]. }
  split; [exact Hm|]. split; [exact Hv|].
  destruct (@chop_in_blocks_multi_B_rows_removed Z 0%Z 0%Z Zfloat 3 _ [1] Hm Hv)
    as (A & B & C & E & Hl & Hsh & _).
  exists A, B, C. split; [exact E|]. split; [exact Hl | exact Hsh].
Defined.

(** C5, as stated, fails: on a batch of one 3 by 3 matrix the [B] block has
    two rows, not all three, and is the [B] block of [chop_in_blocks]. *)
Lemma chop_in_blocks_multi_B_not_all_rows :
  chop_in_blocks_multi [[[1;2;3];[2;4;5];[3;5;6]]]%Z [1]
  = Ok ([[[1;3];[3;6]]], [[[2];[5]]], [[[4]]])%Z /\
  chop_in_blocks 0%Z Zfloat [[1;2;3];[2;4;5];[3;5;6]]%Z [1]
  = Ok ([[1;3];[3;6]], [[2];[5]], [[4]])%Z /\
  ~ (exists A B C,
        chop_in_blocks_multi [[[1;2;3];[2;4;5];[3;5;6]]]%Z [1] = Ok (A, B, C) /\
        Forall (fun b => length b = 3) B).
Proof.
  split; [reflexivity|]. split; [reflexivity|].
  intros (A & B & C & E & H). vm_compute in E. injection E as _ <- _.
  inversion H as [|? ? Hb _]. discriminate Hb.
Qed.

(** C2 at the input that separates the batched from the single
    reassembly: with every index deleted ([n = k], empty reduced arrays)
    [reassemble] and [reassemble_vector] return the identity matrix and
    the zero vector, and [reassemble_multi] and [reassemble_vector_multi]
    raise [IndexError] at [A[:,0,0]] and [va[:,0]]. *)
Theorem reassemble_multi_empty_slices :
  reassemble 0%Z 1%Z Zfloat CPython.set_minus [] [0] = Ok [[1%Z]] /\
  reassemble_multi 0%Z 1%Z Zfloat CPython.set_minus [[]] [0] = Raise IndexError /\
  reassemble_vector 0%Z Zfloat CPython.set_minus [] [0] = Ok [0%Z] /\
  reassemble_vector_multi 0%Z Zfloat CPython.set_minus [[]] [0] = Raise IndexError.
Proof. repeat split. Qed.

Lemma map2d_agree {A : Type} (d : A) (f g : A -> A) (r c : nat) (m : list (list A)) :
  shape r c m -> (forall i j, i < r -> j < c -> f (at2 d m i j) = g (at2 d m i j)) ->
  map2d f m = map2d g m.
Proof.
  intros Hm H. apply (matrix_ext d (shape_map2d f Hm) (shape_map2d g Hm)).
  intros i j Hi Hj.
  rewrite (at2_map2d d f Hm Hi Hj), (at2_map2d d g Hm Hi Hj). now apply H.
Qed.

Lemma map_agree {A : Type} (d : A) (f g : A -> A) (l : list A) :
  (forall p, p < length l -> f (nth p l d) = g (nth p l d)) -> map f l = map g l.
Proof.
  intros H. apply map_ext_in. intros x Hx.
  destruct (In_nth l x d Hx) as (p & Hp & <-). now apply H.
Qed.

(** X10.  Where the reduced arrays are not empty the batched operations
    agree, slice by slice, with the single ones up to the conversion each
    of them applies.  The partition: [A], [B] and both vectors are the
    same, and the single [C] is the batched [C] slice converted to
    float64.  The reassembly: the single result is built from the float64
    conversion of the slice and the batched one from its complex
    conversion, in the same places, so the two are equal on a slice whose
    entries both conversions send to the same value. *)
Lemma batched_equals_single (T : Type) (zero one uninit d : T)
      (to_float to_complex : T -> T)
      (set_minus : nat -> list nat -> list nat) (n : nat) (idtodelete : list nat) :
  valid n idtodelete ->
  Permutation (set_minus n idtodelete) (kept n idtodelete) ->
  let k := length idtodelete in
  let ind := set_minus n idtodelete in
  (forall m : batch T,
      Forall (shape n n) m ->
      exists A B C,
        chop_in_blocks_multi m idtodelete = Ok (A, B, C) /\
        forall i s, nth_error m i = Some s ->
                    exists a b c c',
                      chop_in_blocks uninit to_float s idtodelete = Ok (a, b, c) /\
                      nth_error A i = Some a /\ nth_error B i = Some b /\
                      nth_error C i = Some c' /\ c = map2d to_float c') /\
  (forall v : list (vector T),
      v <> [] -> Forall (fun row => length row = n) v ->
      exists va vb,
        chop_in_blocks_vector_multi set_minus v idtodelete = Ok (va, vb) /\
        forall i s, nth_error v i = Some s ->
                    exists a b,
                      chop_in_blocks_vector set_minus s idtodelete = Ok (a, b) /\
                      nth_error va i = Some a /\ nth_error vb i = Some b) /\
  (forall A : batch T,
      0 < n - k -> A <> [] -> Forall (shape (n - k) (n - k)) A ->
      exists M,
        reassemble_multi zero one to_complex set_minus A idtodelete = Ok M /\
        forall i s, nth_error A i = Some s ->
                    exists r r',
                      reassemble zero one to_float set_minus s idtodelete = Ok r /\
                      nth_error M i = Some r' /\
                      r = reassembled d zero one n (map2d to_float s) ind idtodelete /\
                      r' = reassembled d zero one n (map2d to_complex s) ind idtodelete /\
                      ((forall p q, p < n - k -> q < n - k ->
                                    to_float (at2 d s p q) = to_complex (at2 d s p q)) ->
                       r' = r)) /\
  (forall va : list (vector T),
      0 < n - k -> va <> [] -> Forall (fun row => length row = n - k) va ->
      exists M,
        reassemble_vector_multi zero to_complex set_minus va idtodelete = Ok M /\
        forall i s, nth_error va i = Some s ->
                    exists r r',
                      reassemble_vector zero to_float set_minus s idtodelete = Ok r /\
                      nth_error M i = Some r' /\
                      r = placed_vector d (map to_float s) ind (repeat zero n) /\
                      r' = placed_vector d (map to_complex s) ind (repeat zero n) /\
                      ((forall p, p < n - k ->
                                  to_float (nth p s d) = to_complex (nth p s d)) ->
                       r' = r)).
Proof.
  intros Hv Hp k ind. pose proof Hv as [_ Hin].
  destruct (order_facts Hv Hp) as (_ & Hind & _ & _).
  split; [|split; [|split]].
  - intros m Hm. rewrite (chop_in_blocks_multi_ok d Hm Hin).
    eexists _, _, _. split; [reflexivity|]. intros i s Hs.
    rewrite Forall_forall in Hm.
    rewrite (chop_in_blocks_ok d to_float uninit (Hm s (nth_error_In _ _ Hs)) Hin).
    eexists _, _, _, _. split; [reflexivity|].
    split; [|split; [|split]];
      [ apply (nth_error_map_Some (fun s => submatrix d s (kept n idtodelete)
                                                      (kept n idtodelete)) _ _ Hs)
      | apply (nth_error_map_Some (fun s => submatrix d s (kept n idtodelete)
                                                      idtodelete) _ _ Hs)
      | apply (nth_error_map_Some (fun s => submatrix d s idtodelete idtodelete)
                                  _ _ Hs)
      | reflexivity ].
  - intros v Hne Hrows.
    rewrite (chop_in_blocks_vector_multi_ok d set_minus Hne Hrows Hin Hind).
    eexists _, _. split; [reflexivity|]. intros i s Hs.
    rewrite Forall_forall in Hrows.
    pose proof (Hrows s (nth_error_In _ _ Hs)) as Hl.
    rewrite (chop_in_blocks_vector_ok d set_minus s) by now rewrite Hl.
    rewrite Hl. eexists _, _. split; [reflexivity|].
    split;
      [ apply (nth_error_map_Some
                 (fun row => map (fun i => nth i row d) (set_minus n idtodelete))
                 _ _ Hs)
      | apply (nth_error_map_Some
                 (fun row => map (fun i => nth i row d) idtodelete) _ _ Hs) ].
  - intros A Hpos Hne HA.
    rewrite (reassemble_multi_ok zero one d to_complex set_minus Hv Hpos Hne HA Hp).
    eexists. split; [reflexivity|]. intros i s Hs.
    rewrite Forall_forall in HA. pose proof (HA s (nth_error_In _ _ Hs)) as Hsh.
    rewrite (reassemble_valid zero one d to_float set_minus Hv Hsh Hp).
    eexists _, _. split; [reflexivity|].
    split; [apply (nth_error_map_Some
                     (fun s => reassembled d zero one n (map2d to_complex s)
                                           (set_minus n idtodelete) idtodelete)
                     _ _ Hs)|].
    split; [reflexivity|]. split; [reflexivity|].
    intros Hsame. now rewrite (map2d_agree d to_float to_complex Hsh Hsame).
  - intros va Hpos Hne Hrows.
    rewrite (reassemble_vector_multi_ok zero d to_complex set_minus Hv Hpos Hne Hrows Hp).
    eexists. split; [reflexivity|]. intros i s Hs.
    rewrite Forall_forall in Hrows. pose proof (Hrows s (nth_error_In _ _ Hs)) as Hl.
    rewrite (@reassemble_vector_ok T zero d to_float set_minus n s idtodelete Hv Hl Hp).
    eexists _, _. split; [reflexivity|].
    split; [apply (nth_error_map_Some
                     (fun row => placed_vector d (map to_complex row)
                                               (set_minus n idtodelete)
                                               (repeat zero n)) _ _ Hs)|].
    split; [reflexivity|]. split; [reflexivity|].
    intros Hsame. rewrite (map_agree d to_float to_complex s); [reflexivity|].
    intros p Hp'. apply Hsame. fold k in Hl. lia.
Qed.

(** ** Claims about the order of the kept entries *)

(** With the kept indices iterated in ascending order the first vector
    holds the kept entries in ascending order of their index. *)
Lemma chop_in_blocks_vector_ascending (T : Type) (d : T)
      (set_minus : nat -> list nat -> list nat) (v : vector T) (idtodelete : list nat) :
  Forall (fun i => i < length v) idtodelete ->
  set_minus (length v) idtodelete = kept (length v) idtodelete ->
  chop_in_blocks_vector set_minus v idtodelete
  = Ok (map (fun i => nth i v d) (kept (length v) idtodelete),
        map (fun i => nth i v d) idtodelete).
Proof.
  intros Hin Hasc.
  rewrite (chop_in_blocks_vector_ok d set_minus v Hin); rewrite Hasc; [reflexivity|].
  apply Forall_forall. intros x Hx. now apply in_kept in Hx.
Qed.

(** C6 at an input on which the set is not iterated in ascending order:
    of ten entries the two kept ones, at the indices 1 and 8, come out as
    [v[8], v[1]].  The scenario of the claim, four entries, comes out as
    stated. *)
Theorem chop_in_blocks_vector_kept_order :
  kept 10 [0;2;3;4;5;6;7;9] = [1;8] /\
  CPython.set_minus 10 [0;2;3;4;5;6;7;9] = [8;1] /\
  chop_in_blocks_vector CPython.set_minus
                        [0;10;20;30;40;50;60;70;80;90]%Z [0;2;3;4;5;6;7;9]
  = Ok ([80;10], [0;20;30;40;50;60;70;90])%Z /\
  chop_in_blocks_vector_multi CPython.set_minus
                              [[0;10;20;30;40;50;60;70;80;90]]%Z [0;2;3;4;5;6;7;9]
  = Ok ([[80;10]], [[0;20;30;40;50;60;70;90]])%Z /\
  chop_in_blocks_vector CPython.set_minus [10;20;30;40]%Z [0;2]
  = Ok ([20;40], [10;30])%Z.
Proof. vm_compute. repeat split. Qed.

Section RoundTrip.
Variable T : Type.
Variables zero one d : T.
Variable to_float : T -> T.

(** Chopping a matrix that has a block [A] at the kept indices, in
    ascending order, and the fill convention elsewhere, where [0] and
    [1.0] are float64 values. *)
Lemma chop_reassembled (uninit : T) (n : nat) (A : matrix T) (ids : list nat) :
  to_float zero = zero -> to_float one = one ->
  valid n ids -> shape (n - length ids) (n - length ids) A ->
  chop_in_blocks uninit to_float (reassembled d zero one n A (kept n ids) ids) ids
  = Ok (A, full (n - length ids) (length ids) zero, eye zero one (length ids)).
Proof.
  intros Hzero Hone Hv HA. pose proof Hv as [Hnd Hin].
  set (keep := kept n ids). set (R := reassembled d zero one n A keep ids).
  assert (HR : shape n n R) by apply shape_tabulate.
  rewrite (chop_in_blocks_ok d to_float uninit HR Hin). fold keep.
  pose proof (length_kept Hv) as Hk. fold keep in Hk.
  assert (Hkeep : forall a, a < length keep ->
                            nth a keep 0 < n /\ mem (nth a keep 0) ids = false /\
                            index_of (nth a keep 0) keep = Some a).
  { intros a Ha. pose proof (nth_In keep 0 Ha) as H.
    apply in_kept in H as [H1 H2]. split; [assumption|].
    split; [now apply mem_not_In | apply index_of_nth; [apply NoDup_kept | assumption]]. }
  assert (Hdel : forall b, b < length ids ->
                           nth b ids 0 < n /\ mem (nth b ids 0) ids = true /\
                           index_of (nth b ids 0) keep = None).
  { intros b Hb. pose proof (nth_In ids 0 Hb) as H.
    rewrite Forall_forall in Hin. split; [now apply Hin|].
    split; [now apply mem_In|]. apply index_of_None. intros Hx.
    now apply in_kept in Hx. }
  f_equal. f_equal; [f_equal|].
  - symmetry. rewrite <- Hk in HA.
    apply (matrix_ext d HA (shape_submatrix d R keep keep)).
    intros a b Ha Hb. rewrite at2_submatrix by assumption.
    destruct (Hkeep a Ha) as (Ha1 & Ha2 & Ha3), (Hkeep b Hb) as (Hb1 & Hb2 & Hb3).
    unfold R, reassembled. rewrite at2_tabulate by assumption.
    now rewrite Ha2, andb_false_r, Ha3, Hb3.
  - rewrite <- Hk.
    apply (matrix_ext d (shape_submatrix d R keep ids) (shape_full _ _ zero)).
    intros a b Ha Hb. rewrite at2_submatrix, at2_full by assumption.
    destruct (Hkeep a Ha) as (Ha1 & Ha2 & Ha3), (Hdel b Hb) as (Hb1 & Hb2 & Hb3).
    unfold R, reassembled. rewrite at2_tabulate by assumption.
    now rewrite Ha2, andb_false_r, Ha3, Hb3.
  - apply (matrix_ext d (shape_map2d to_float (shape_submatrix d R ids ids))
                      (shape_tabulate (length ids) (length ids) _)).
    intros a b Ha Hb.
    rewrite (at2_map2d d to_float (shape_submatrix d R ids ids) Ha Hb).
    rewrite at2_submatrix by assumption.
    change (eye zero one (length ids))
      with (tabulate (length ids) (length ids)
                     (fun i j => if i =? j then one else zero)).
    rewrite at2_tabulate by assumption.
    destruct (Hdel a Ha) as (Ha1 & Ha2 & Ha3), (Hdel b Hb) as (Hb1 & Hb2 & Hb3).
    unfold R, reassembled. rewrite at2_tabulate by assumption.
    rewrite Ha2, andb_true_r, Ha3.
    destruct (a =? b) eqn:Eab.
    + apply Nat.eqb_eq in Eab. subst b. now rewrite Nat.eqb_refl.
    + replace (nth a ids 0 =? nth b ids 0) with false; [assumption|].
      symmetry. apply Nat.eqb_neq. intros E. apply Nat.eqb_neq in Eab.
      apply Eab. apply (proj1 (NoDup_nth ids 0) Hnd a b Ha Hb E).
Qed.

(** What reassembling the first block of a chopped matrix gives when the
    kept indices are iterated in ascending order. *)
Lemma reassembled_submatrix (n : nat) (m : matrix T) (ids : list nat) :
  valid n ids -> shape n n m ->
  let keep := kept n ids in
  let R := reassembled d zero one n (map2d to_float (submatrix d m keep keep)) keep ids in
  (forall i j, In i keep -> In j keep -> at2 d R i j = to_float (at2 d m i j)) /\
  fill_convention d zero one n ids R /\
  (R = m <->
   fill_convention d zero one n ids m /\
   forall i j, In i keep -> In j keep -> to_float (at2 d m i j) = at2 d m i j).
Proof.
  intros Hv Hm keep R.
  assert (Hfill : fill_convention d zero one n ids R).
  { apply reassembled_fill; [assumption | apply in_kept]. }
  assert (Hkk : forall i j, In i keep -> In j keep ->
                            at2 d R i j = to_float (at2 d m i j)).
  { intros i j Hi Hj.
    pose proof (proj1 (in_kept n ids i) Hi) as [Hi1 Hi2].
    pose proof (proj1 (in_kept n ids j) Hj) as [Hj1 Hj2].
    unfold R, reassembled. rewrite at2_tabulate by assumption.
    apply mem_not_In in Hi2. rewrite Hi2, andb_false_r.
    destruct (In_nth keep i 0 Hi) as (a & Ha & Ea).
    destruct (In_nth keep j 0 Hj) as (b & Hb & Eb).
    rewrite <- Ea, <- Eb, !index_of_nth by (assumption || apply NoDup_kept).
    rewrite (at2_map2d d to_float (shape_submatrix d m keep keep) Ha Hb).
    now rewrite at2_submatrix. }
  split; [assumption|]. split; [assumption|]. split.
  - intros E. split; [now rewrite <- E|].
    intros i j Hi Hj. rewrite <- (Hkk i j Hi Hj). now rewrite E.
  - intros [(_ & Hdiag & Hoff) Hfix].
    apply (matrix_ext d (shape_tabulate n n _) Hm).
    intros i j Hi Hj.
    destruct (In_dec Nat.eq_dec i ids) as [Hid|Hid];
      destruct (In_dec Nat.eq_dec j ids) as [Hjd|Hjd].
    + destruct (Nat.eq_dec i j) as [<-|Hne].
      * rewrite Hdiag by assumption. now apply Hfill.
      * rewrite Hoff by auto. apply Hfill; auto.
    + assert (Hne : i <> j) by congruence.
      rewrite Hoff by auto. apply Hfill; auto.
    + assert (Hne : i <> j) by congruence.
      rewrite Hoff by auto. apply Hfill; auto.
    + assert (Hik : In i keep) by (apply in_kept; now split).
      assert (Hjk : In j keep) by (apply in_kept; now split).
      transitivity (to_float (at2 d m i j)); [now apply Hkk | now apply Hfix].
Qed.
End RoundTrip.

(** C10 at the same ten indices: [reassemble] writes the 2 by 2 matrix
    at the rows and columns 8, 1 in that order, and [chop_in_blocks]
    reads them back as 1, 8, so the first block comes back transposed
    along both axes. *)
Theorem chop_reassemble_kept_order :
  exists M,
    reassemble 0%Z 1%Z Zfloat CPython.set_minus [[1;2];[3;4]]%Z [0;2;3;4;5;6;7;9] = Ok M /\
    chop_in_blocks 0%Z Zfloat M [0;2;3;4;5;6;7;9]
    = Ok ([[4;3];[2;1]]%Z, full 2 8 0%Z, eye 0%Z 1%Z 8).
Proof. eexists. split; vm_compute; reflexivity. Qed.

(** ** Claims about chopping and reassembling in turn *)

Lemma nth_repeat_lt {A : Type} (d x : A) (n p : nat) :
  p < n -> nth p (repeat x n) d = x.
Proof.
  intros H. rewrite (nth_indep _ d x) by now rewrite repeat_length.
  apply nth_repeat.
Qed.

Lemma at2_placed_vector {T : Type} (d zero : T) (cast : T -> T) (n : nat) (v : vector T)
      (ids ind : list nat) (p : nat) :
  (forall x, In x ind <-> x < n /\ ~ In x ids) -> p < n ->
  nth p (placed_vector d (map cast (map (fun i => nth i v d) ind)) ind (repeat zero n)) d
  = if mem p ids then zero else cast (nth p v d).
Proof.
  intros Hmem Hp. unfold placed_vector.
  rewrite repeat_length, nth_map_seq by assumption.
  destruct (index_of p ind) as [j|] eqn:Ej.
  - apply index_of_Some in Ej as [Hj Ejp].
    assert (Hin : In p ind) by (rewrite <- Ejp; now apply nth_In).
    apply Hmem in Hin as [_ Hin]. apply mem_not_In in Hin. rewrite Hin.
    rewrite map_map.
    rewrite (nth_indep _ d (cast (nth 0 v d))) by now rewrite length_map.
    rewrite (map_nth (fun i => cast (nth i v d)) ind 0 j). now rewrite Ejp.
  - apply index_of_None in Ej.
    destruct (mem p ids) eqn:Em; [now apply nth_repeat_lt|].
    apply mem_not_In in Em. exfalso. apply Ej, Hmem. now split.
Qed.

(** C4, as the code has it.  For [k] distinct indices [idtodelete] below
    [n]: reassembling the first vector that [chop_in_blocks_vector]
    returns gives the entries of [v], converted to float64, at the kept
    positions and [0] at the positions in [idtodelete]; and, where the
    kept indices are iterated in ascending order, reassembling the first
    block that [chop_in_blocks] returns gives the entries of [m],
    converted to float64, at the kept rows and columns and the fill
    convention at the others, which is [m] exactly when [m] has that fill
    convention already and the conversion leaves its kept entries as they
    are. *)
Theorem reassemble_chop_round_trip :
  forall (T : Type) (zero one uninit d : T) (to_float : T -> T)
         (set_minus : nat -> list nat -> list nat)
         (n : nat) (idtodelete : list nat),
    valid n idtodelete ->
    Permutation (set_minus n idtodelete) (kept n idtodelete) ->
    (forall v : vector T,
        length v = n ->
        exists va vb r,
          chop_in_blocks_vector set_minus v idtodelete = Ok (va, vb) /\
          reassemble_vector zero to_float set_minus va idtodelete = Ok r /\
          length r = n /\
          forall p, p < n ->
                    nth p r d = if mem p idtodelete then zero
                                else to_float (nth p v d)) /\
    (set_minus n idtodelete = kept n idtodelete ->
     forall m : matrix T,
       shape n n m ->
       exists A B C R,
         chop_in_blocks uninit to_float m idtodelete = Ok (A, B, C) /\
         reassemble zero one to_float set_minus A idtodelete = Ok R /\
         (forall i j, In i (kept n idtodelete) -> In j (kept n idtodelete) ->
                      at2 d R i j = to_float (at2 d m i j)) /\
         fill_convention d zero one n idtodelete R /\
         (R = m <->
          fill_convention d zero one n idtodelete m /\
          forall i j, In i (kept n idtodelete) -> In j (kept n idtodelete) ->
                      to_float (at2 d m i j) = at2 d m i j)).
Proof.
  intros T zero one uninit d to_float set_minus n ids Hv Hp.
  pose proof Hv as [_ Hin].
  destruct (order_facts Hv Hp) as (_ & Hind & Hlen & Hmem).
  split.
  - intros v Hl. subst n.
    rewrite (chop_in_blocks_vector_ok d set_minus v Hin Hind).
    eexists _, _, _. split; [reflexivity|].
    rewrite (@reassemble_vector_ok T zero d to_float set_minus (length v) _ ids Hv
               (eq_trans (length_map _ _) Hlen) Hp).
    split; [reflexivity|]. split.
    + unfold placed_vector. now rewrite length_map, length_seq, repeat_length.
    + intros p Hp'. now apply at2_placed_vector.
  - intros Hasc m Hm.
    rewrite (chop_in_blocks_ok d to_float uninit Hm Hin).
    eexists _, _, _, _. split; [reflexivity|].
    rewrite (reassemble_valid zero one d to_float set_minus Hv).
    + split; [reflexivity|]. rewrite Hasc.
      apply (reassembled_submatrix zero one d to_float Hv Hm).
    + rewrite <- (length_kept Hv). apply shape_submatrix.
    + assumption.
Qed.

Lemma reassemble_chop_round_trip_witness :
  valid 3 [1] /\ Permutation (CPython.set_minus 3 [1]) (kept 3 [1]) /\
  CPython.set_minus 3 [1] = kept 3 [1] /\
  (exists va vb r,
      chop_in_blocks_vector CPython.set_minus [10;20;30]%Z [1] = Ok (va, vb) /\
      reassemble_vector 0%Z Zfloat CPython.set_minus va [1] = Ok r /\
      length r = 3 /\
      forall p, p < 3 -> nth p r 0%Z = if mem p [1] then 0%Z
                                       else Zfloat (nth p [10;20;30]%Z 0%Z)) /\
  (exists A B C R,
      chop_in_blocks 0%Z Zfloat [[1;2;3];[2;4;5];[3;5;6]]%Z [1] = Ok (A, B, C) /\
      reassemble 0%Z 1%Z Zfloat CPython.set_minus A [1] = Ok R /\
      fill_convention 0%Z 0%Z 1%Z 3 [1] R).
Proof.
  assert (Hv : valid 3 [1]).
  { split; [constructor; [intros [] | constructor] | repeat constructor]. }
  assert (Hasc : CPython.set_minus 3 [1] = kept 3 [1]) by (vm_compute; reflexivity).
  assert (Hp : Permutation (CPython.set_minus 3 [1]) (kept 3 [1])).
  { rewrite Hasc. apply Permutation_refl. }
  assert (Hm : shape 3 3 [[1;2;3];[2;4;5];[3;5;6]]%Z)
    by (split; [reflexivity | repeat constructor]).
  split; [exact Hv|]. split; [exact Hp|]. split; [exact Hasc|].
  destruct (@reassemble_chop_round_trip Z 0%Z 1%Z 0%Z 0%Z Zfloat CPython.set_minus 3 [1]
                                        Hv Hp) as [Hvec Hmat].
  split; [exact (Hvec [10;20;30]%Z eq_refl)|].
  destruct (Hmat Hasc _ Hm) as (A & B & C & R & E1 & E2 & _ & Hfill & _).
  exists A, B, C, R. split; [exact E1|]. split; [exact E2 | exact Hfill].
Defined.

(** C4, as stated, fails on the scenarios of the specification: the
    reassembled matrix has the fill convention at row and column 1, the
    reassembled vector zeros at 0 and 2.  It also fails at a kept
    position whose entry the conversion to float64 changes: the kept
    entry [2^53 + 1] comes back as [2^53], and the kept entry [3 + 5i]
    as [3]. *)
Lemma reassemble_chop_not_identity :
  ~ (forall A B C,
        chop_in_blocks 0%Z Zfloat [[1;2;3];[2;4;5];[3;5;6]]%Z [1] = Ok (A, B, C) ->
        reassemble 0%Z 1%Z Zfloat CPython.set_minus A [1]
        = Ok [[1;2;3];[2;4;5];[3;5;6]]%Z) /\
  ~ (forall va vb,
        chop_in_blocks_vector CPython.set_minus [10;20;30;40]%Z [0;2] = Ok (va, vb) ->
        reassemble_vector 0%Z Zfloat CPython.set_minus va [0;2] = Ok [10;20;30;40]%Z) /\
  reassemble 0%Z 1%Z Zfloat CPython.set_minus [[1;3];[3;6]]%Z [1]
  = Ok [[1;0;3];[0;1;0];[3;0;6]]%Z /\
  reassemble_vector 0%Z Zfloat CPython.set_minus [20;40]%Z [0;2] = Ok [0;20;0;40]%Z /\
  (exists va vb,
      chop_in_blocks_vector CPython.set_minus [9007199254740993; 0]%Z [1] = Ok (va, vb) /\
      reassemble_vector 0%Z Zfloat CPython.set_minus va [1]
      = Ok [9007199254740992; 0]%Z) /\
  (exists A B C,
      chop_in_blocks (0, 0)%Z Cfloat [[(3, 5); (0, 0)]; [(0, 0); (1, 0)]]%Z [1]
      = Ok (A, B, C) /\
      reassemble (0, 0)%Z (1, 0)%Z Cfloat CPython.set_minus A [1]
      = Ok [[(3, 0); (0, 0)]; [(0, 0); (1, 0)]]%Z).
Proof.
  split; [|split; [|split; [reflexivity|split; [reflexivity|split]]]].
  - intros H. specialize (H _ _ _ eq_refl). vm_compute in H. discriminate H.
  - intros H. specialize (H _ _ eq_refl). vm_compute in H. discriminate H.
  - eexists _, _. split; [vm_compute; reflexivity|]. vm_compute. reflexivity.
  - eexists _, _, _. split; [vm_compute; reflexivity|]. vm_compute. reflexivity.
Qed.

(** ** Claims about the boundary: every index deleted *)

Lemma kept_all (n : nat) (ids : list nat) :
  valid n ids -> length ids = n -> kept n ids = [].
Proof.
  intros Hv Hl. apply length_zero_iff_nil. rewrite (length_kept Hv). lia.
Qed.

(** C8, as the code has it.  For an [n] by [n] matrix [m] and
    [idtodelete] holding each of the [n] indices once, in any order,
    [chop_in_blocks] returns an empty [A], an empty [B] and the [C] that
    holds at [C[i,j]] the entry [m[idtodelete[i], idtodelete[j]]]
    converted to float64, which is [m] when [idtodelete] is
    [0, ..., n-1] and the conversion leaves the entries of [m] as they
    are; and [reassemble] of an empty [A] with such an [idtodelete]
    returns the [n] by [n] identity. *)
Theorem chop_all_indices :
  forall (T : Type) (zero one uninit d : T) (to_float : T -> T)
         (set_minus : nat -> list nat -> list nat)
         (n : nat) (m : matrix T) (idtodelete : list nat),
    shape n n m -> valid n idtodelete -> length idtodelete = n ->
    Permutation (set_minus n idtodelete) (kept n idtodelete) ->
    (exists C,
        chop_in_blocks uninit to_float m idtodelete = Ok ([], [], C) /\
        shape n n C /\
        (forall i j, i < n -> j < n ->
                     at2 d C i j
                     = to_float (at2 d m (nth i idtodelete 0) (nth j idtodelete 0))) /\
        (idtodelete = seq 0 n ->
         (forall i j, i < n -> j < n -> to_float (at2 d m i j) = at2 d m i j) ->
         C = m)) /\
    reassemble zero one to_float set_minus [] idtodelete = Ok (eye zero one n).
Proof.
  intros T zero one uninit d to_float set_minus n m ids Hm Hv Hl Hp.
  pose proof Hv as [_ Hin]. pose proof (kept_all Hv Hl) as Hk.
  assert (HCs : shape n n (map2d to_float (submatrix d m ids ids))).
  { rewrite <- Hl at 1 2. apply shape_map2d, (shape_submatrix d m ids ids). }
  assert (HC : forall i j, i < n -> j < n ->
                 at2 d (map2d to_float (submatrix d m ids ids)) i j
                 = to_float (at2 d m (nth i ids 0) (nth j ids 0))).
  { intros i j Hi Hj. rewrite <- Hl in Hi, Hj.
    rewrite (at2_map2d d to_float (shape_submatrix d m ids ids) Hi Hj).
    now rewrite at2_submatrix. }
  split.
  - exists (map2d to_float (submatrix d m ids ids)).
    split; [rewrite (chop_in_blocks_ok d to_float uninit Hm Hin); now rewrite Hk|].
    split; [exact HCs|]. split; [exact HC|].
    intros Hseq Hfix. apply (matrix_ext d HCs Hm). intros i j Hi Hj.
    rewrite (HC i j Hi Hj), Hseq, !seq_nth by assumption. simpl.
    now apply Hfix.
  - rewrite (reassemble_valid zero one d to_float set_minus Hv);
      [|rewrite Hl, Nat.sub_diag; split; [reflexivity | constructor]|assumption].
    f_equal. rewrite Hk in Hp. apply Permutation_sym, Permutation_nil in Hp. rewrite Hp.
    apply tabulate_ext. intros i j Hi Hj.
    assert (Hi' : mem i ids = true).
    { destruct (mem i ids) eqn:E; [reflexivity|]. apply mem_not_In in E.
      assert (H : In i (kept n ids)) by (apply in_kept; now split).
      rewrite Hk in H. destruct H. }
    rewrite Hi', andb_true_r. now destruct (i =? j).
Qed.

Lemma chop_all_indices_witness :
  shape 2 2 [[1;2];[2;3]]%Z /\ valid 2 [1;0] /\ length [1;0] = 2 /\
  Permutation (CPython.set_minus 2 [1;0]) (kept 2 [1;0]) /\
  (exists C,
      chop_in_blocks 0%Z Zfloat [[1;2];[2;3]]%Z [1;0] = Ok ([], [], C) /\
      shape 2 2 C /\
      forall i j, i < 2 -> j < 2 ->
                  at2 0%Z C i j
                  = Zfloat (at2 0%Z [[1;2];[2;3]]%Z (nth i [1;0] 0) (nth j [1;0] 0))) /\
  reassemble 0%Z 1%Z Zfloat CPython.set_minus [] [1;0] = Ok (eye 0%Z 1%Z 2).
Proof.
  assert (Hm : shape 2 2 [[1;2];[2;3]]%Z)
    by (split; [reflexivity | repeat constructor]).
  assert (Hv : valid 2 [1;0]).
  { split; [|repeat constructor].
    constructor; [intros [H|[]]; discriminate H|].
    constructor; [intros [] | constructor]. }
  assert (Hp : Permutation (CPython.set_minus 2 [1;0]) (kept 2 [1;0])).
  { vm_compute. apply Permutation_refl. }
  split; [exact Hm|]. split; [exact Hv|]. split; [reflexivity|]. split; [exact Hp|].
  destruct (@chop_all_indices Z 0%Z 1%Z 0%Z 0%Z Zfloat CPython.set_minus 2 _ [1;0]
                              Hm Hv eq_refl Hp) as ((C & E1 & HC & HCe & _) & E2).
  split; [|exact E2].
  exists C. split; [exact E1|]. split; [exact HC | exact HCe].
Defined.

(** C8, as stated, fails when [idtodelete] is not ascending: the third
    block is [m] with its rows and columns in the order of [idtodelete].
    It also fails, with [idtodelete] ascending, on an entry the
    conversion to float64 changes. *)
Lemma chop_all_indices_reversed :
  chop_in_blocks 0%Z Zfloat [[1;2];[2;3]]%Z [1;0] = Ok ([], [], [[3;2];[2;1]])%Z /\
  ~ (exists A B,
        chop_in_blocks 0%Z Zfloat [[1;2];[2;3]]%Z [1;0] = Ok (A, B, [[1;2];[2;3]]%Z)) /\
  chop_in_blocks 0%Z Zfloat [[9007199254740993]]%Z [0]
  = Ok ([], [], [[9007199254740992]])%Z /\
  chop_in_blocks (0, 0)%Z Cfloat [[(3, 5)]]%Z [0] = Ok ([], [], [[(3, 0)]])%Z.
Proof.
  split; [reflexivity|]. split; [|split; vm_compute; reflexivity].
  intros (A & B & E). vm_compute in E. discriminate E.
Qed.

(** ** Claims about indices that are not valid *)

Lemma getitem_cases {A : Type} (l : list A) (i : nat) :
  (exists x, getitem l i = Ok x) \/ getitem l i = Raise IndexError.
Proof.
  unfold getitem. destruct (nth_error l i); [left; now eexists | now right].
Qed.

Lemma take_cases {A : Type} (l : list A) (ids : list nat) :
  (exists r, take l ids = Ok r) \/ take l ids = Raise IndexError.
Proof.
  unfold take. induction ids as [|i ids IH]; simpl; [left; now eexists|].
  destruct (getitem_cases l i) as [[x ->] | ->]; simpl; [|now right].
  destruct IH as [[r ->] | ->]; simpl; [left; now eexists | now right].
Qed.

Lemma take_out {A : Type} (l : list A) (ids : list nat) :
  Exists (fun i => length l <= i) ids -> take l ids = Raise IndexError.
Proof.
  unfold take. induction 1 as [i ids H|i ids H IH]; simpl.
  - now rewrite (getitem_out l H).
  - rewrite IH. now destruct (getitem_cases l i) as [[x ->] | ->].
Qed.

Lemma mapM_take_cases {A : Type} (l : list (list A)) (ids : list nat) :
  (exists r, mapM (fun row => take row ids) l = Ok r) \/
  mapM (fun row => take row ids) l = Raise IndexError.
Proof.
  induction l as [|row l IH]; simpl; [left; now eexists|].
  destruct (take_cases row ids) as [[r ->] | ->]; simpl; [|now right].
  destruct IH as [[r' ->] | ->]; simpl; [left; now eexists | now right].
Qed.

Lemma Exists_not_Forall (n : nat) (ids : list nat) :
  Exists (fun i => n <= i) ids -> ~ Forall (fun i => i < n) ids.
Proof.
  intros He Hf. rewrite Exists_exists in He. destruct He as (x & Hx & Hle).
  rewrite Forall_forall in Hf. specialize (Hf x Hx). simpl in Hf. lia.
Qed.

(** C7, as the code has it.  No function of [ops.py] validates
    [idtodelete].  An entry out of range makes each partition operation
    fail with numpy's [IndexError], and nothing is returned; entries in
    range, repeated or not, are accepted and a result is returned. *)
Theorem partition_invalid_index :
  forall (T : Type) (uninit : T) (to_float : T -> T)
         (set_minus : nat -> list nat -> list nat)
         (n : nat) (idtodelete : list nat),
    (Exists (fun i => n <= i) idtodelete ->
     (forall m : matrix T,
         shape n n m -> chop_in_blocks uninit to_float m idtodelete = Raise IndexError) /\
     (forall v : vector T,
         length v = n ->
         chop_in_blocks_vector set_minus v idtodelete = Raise IndexError) /\
     (forall m : batch T,
         m <> [] -> Forall (shape n n) m ->
         chop_in_blocks_multi m idtodelete = Raise IndexError) /\
     (forall v : list (vector T),
         v <> [] -> Forall (fun row => length row = n) v ->
         chop_in_blocks_vector_multi set_minus v idtodelete = Raise IndexError)) /\
    (Forall (fun i => i < n) idtodelete ->
     Forall (fun i => i < n) (set_minus n idtodelete) ->
     (forall m : matrix T,
         shape n n m -> exists r, chop_in_blocks uninit to_float m idtodelete = Ok r) /\
     (forall v : vector T,
         length v = n ->
         exists r, chop_in_blocks_vector set_minus v idtodelete = Ok r) /\
     (forall m : batch T,
         Forall (shape n n) m -> exists r, chop_in_blocks_multi m idtodelete = Ok r) /\
     (forall v : list (vector T),
         v <> [] -> Forall (fun row => length row = n) v ->
         exists r, chop_in_blocks_vector_multi set_minus v idtodelete = Ok r)).
Proof.
  intros T uninit to_float set_minus n ids. split.
  - intros Hout. split; [|split; [|split]].
    + intros m [Hl _]. unfold chop_in_blocks, delete_rows_cols.
      rewrite np_delete_out; [reflexivity|].
      rewrite Hl. now apply Exists_not_Forall.
    + intros v Hl. unfold chop_in_blocks_vector.
      destruct (take_cases v (set_minus (length v) ids)) as [[r ->] | ->];
        [|reflexivity].
      cbn [bind]. rewrite take_out; [reflexivity | now rewrite Hl].
    + intros m Hne Hm. destruct m as [|s m]; [congruence|].
      inversion Hm as [|? ? [Hl _] _]; subst.
      unfold chop_in_blocks_multi. cbn [mapM].
      rewrite np_delete_out; [reflexivity|].
      now apply Exists_not_Forall.
    + intros v Hne Hv. destruct v as [|row v]; [congruence|].
      inversion Hv as [|? ? Hl _]; subst.
      unfold chop_in_blocks_vector_multi. cbn [getitem nth_error bind].
      destruct (mapM_take_cases (row :: v) (set_minus (length row) ids))
        as [[r ->] | ->]; [|reflexivity].
      cbn [bind mapM]. rewrite take_out; [reflexivity | assumption].
  - intros Hin Hind. split; [|split; [|split]].
    + intros m Hm. eexists. apply (chop_in_blocks_ok uninit to_float uninit Hm Hin).
    + intros v Hl. subst n. eexists.
      apply (chop_in_blocks_vector_ok uninit set_minus v Hin Hind).
    + intros m Hm. eexists. apply (chop_in_blocks_multi_ok uninit Hm Hin).
    + intros v Hne Hv. eexists.
      apply (chop_in_blocks_vector_multi_ok uninit set_minus Hne Hv Hin Hind).
Qed.

Lemma partition_invalid_index_witness :
  Exists (fun i => 3 <= i) [1;3] /\
  chop_in_blocks 0%Z Zfloat [[1;2;3];[2;4;5];[3;5;6]]%Z [1;3] = Raise IndexError /\
  chop_in_blocks_vector CPython.set_minus [10;20;30]%Z [1;3] = Raise IndexError /\
  Forall (fun i => i < 3) [1;1] /\
  Forall (fun i => i < 3) (CPython.set_minus 3 [1;1]) /\
  (exists r, chop_in_blocks 0%Z Zfloat [[1;2;3];[2;4;5];[3;5;6]]%Z [1;1] = Ok r) /\
  (exists r, chop_in_blocks_vector CPython.set_minus [10;20;30]%Z [1;1] = Ok r).
Proof.
  assert (Hout : Exists (fun i => 3 <= i) [1;3]).
  { apply Exists_cons_tl, Exists_cons_hd. lia. }
  assert (Hin : Forall (fun i => i < 3) [1;1]) by (repeat constructor).
  assert (Hind : Forall (fun i => i < 3) (CPython.set_minus 3 [1;1])).
  { vm_compute. repeat constructor. }
  assert (Hm : shape 3 3 [[1;2;3];[2;4;5];[3;5;6]]%Z)
    by (split; [reflexivity | repeat constructor]).
  destruct (@partition_invalid_index Z 0%Z Zfloat CPython.set_minus 3 [1;3])
    as [Hbad _].
  destruct (Hbad Hout) as (H1 & H2 & _).
  destruct (@partition_invalid_index Z 0%Z Zfloat CPython.set_minus 3 [1;1])
    as [_ Hgood].
  destruct (Hgood Hin Hind) as (G1 & G2 & _).
  split; [exact Hout|]. split; [exact (H1 _ Hm)|]. split; [exact (H2 [10;20;30]%Z eq_refl)|].
  split; [exact Hin|]. split; [exact Hind|].
  split; [exact (G1 _ Hm) | exact (G2 [10;20;30]%Z eq_refl)].
Defined.

(** C7, as stated, fails on a repeated index: both functions return. *)
Lemma duplicate_index_not_rejected :
  chop_in_blocks 0%Z Zfloat [[1;2;3];[2;4;5];[3;5;6]]%Z [1;1]
  = Ok ([[1;3];[3;6]], [[2;2];[5;5]], [[4;4];[4;4]])%Z /\
  chop_in_blocks_vector CPython.set_minus [10;20;30]%Z [1;1]
  = Ok ([10;30], [20;20])%Z /\
  ~ (exists e, chop_in_blocks_vector CPython.set_minus [10;20;30]%Z [1;1]
               = Raise e).
Proof.
  split; [reflexivity|]. split; [reflexivity|].
  intros (e & E). vm_compute in E. discriminate E.
Qed.

(** ** Facts about the store *)

Lemma upd_same {A : Type} (l : list A) (i : nat) (x : A) :
  nth_error l i = Some x -> upd l i x = l.
Proof.
  revert i. induction l as [|a l IH]; intros [|i] H; simpl in *;
    try discriminate; try reflexivity.
  - now injection H as ->.
  - f_equal. now apply IH.
Qed.

Lemma upd_upd {A : Type} (l : list A) (i : nat) (x y : A) :
  upd (upd l i x) i y = upd l i y.
Proof.
  revert i. induction l as [|a l IH]; intros [|i]; simpl; try reflexivity.
  f_equal. apply IH.
Qed.

Lemma nth_error_upd {A : Type} (l : list A) (i j : nat) (x : A) :
  i < length l ->
  nth_error (upd l i x) j = if j =? i then Some x else nth_error l j.
Proof.
  revert i j. induction l as [|a l IH]; intros i j H; simpl in H; [lia|].
  destruct i as [|i], j as [|j]; simpl; try reflexivity.
  apply IH. lia.
Qed.

Section StoreFacts.
Variable T : Type.

Abbreviation store := (Storage.store T).
Abbreviation prog := (Storage.prog T).

Lemma load1_at (s : store) (r : nat) (v : vector T) :
  nth_error s r = Some (Storage.Arr1 v) -> Storage.load1 r s = Ok (v, s).
Proof. intros H. unfold Storage.load1. now rewrite H. Qed.

Lemma load2_at (s : store) (r : nat) (m : matrix T) :
  nth_error s r = Some (Storage.Arr2 m) -> Storage.load2 r s = Ok (m, s).
Proof. intros H. unfold Storage.load2. now rewrite H. Qed.

Lemma load3_at (s : store) (r : nat) (b : batch T) :
  nth_error s r = Some (Storage.Arr3 b) -> Storage.load3 r s = Ok (b, s).
Proof. intros H. unfold Storage.load3. now rewrite H. Qed.

Lemma write_at (s : store) (r : nat) (a b : Storage.ndarray T) :
  nth_error s r = Some a -> Storage.write r b s = Ok (tt, upd s r b).
Proof.
  intros H. unfold Storage.write.
  assert (Hr : r < length s) by (apply nth_error_Some; congruence).
  apply Nat.ltb_lt in Hr. now rewrite Hr.
Qed.

(** An operation that computes a new array from one operand. *)
Lemma new1_run {X : Type} (load : nat -> prog X) (wrap : X -> Storage.ndarray T)
      (f : X -> result X) (r : nat) (x : X) (s : store) :
  load r s = Ok (x, s) ->
  Storage.new1 load wrap f r s
  = match f x with
    | Ok y => Ok (length s, s ++ [wrap y])
    | Raise e => Raise e
    end.
Proof.
  intros H. unfold Storage.new1, Storage.bindp, Storage.lift, Storage.alloc.
  rewrite H. now destruct (f x).
Qed.

(** A loop whose body rewrites the array at [cr] and keeps [Inv]. *)
Lemma for_run {X Y : Type} (wrap : Y -> Storage.ndarray T) (cr : nat)
      (Inv : store -> Prop) (f : Y -> X -> result Y) (body : X -> prog unit) :
  (forall s a, Inv s -> Inv (upd s cr a)) ->
  (forall x s c, nth_error s cr = Some (wrap c) -> Inv s ->
                 body x s = match f c x with
                            | Ok c' => Ok (tt, upd s cr (wrap c'))
                            | Raise e => Raise e
                            end) ->
  forall l s c, nth_error s cr = Some (wrap c) -> Inv s ->
                Storage.for_ l body s = match foldM f l c with
                                        | Ok c' => Ok (tt, upd s cr (wrap c'))
                                        | Raise e => Raise e
                                        end.
Proof.
  intros Hinv Hbody. induction l as [|x l IH]; intros s c Hc Hs; simpl.
  - unfold Storage.ret. now rewrite (upd_same _ _ Hc).
  - unfold Storage.bindp. rewrite (Hbody x s c Hc Hs).
    destruct (f c x) as [c1|e]; simpl; [|reflexivity].
    assert (Hr : cr < length s) by (apply nth_error_Some; congruence).
    rewrite (IH (upd s cr (wrap c1)) c1).
    + destruct (foldM f l c1); [now rewrite upd_upd | reflexivity].
    + now rewrite nth_error_upd, Nat.eqb_refl.
    + now apply Hinv.
Qed.

(** The body [x = m[g, g1]; C[i, j] = x], the write converting [x]. *)
Lemma copy_entry_run (cast : T -> T) (mr cr : nat) (m c : matrix T) (g g1 i j : nat)
      (s : store) :
  nth_error s mr = Some (Storage.Arr2 m) ->
  nth_error s cr = Some (Storage.Arr2 c) ->
  Storage.bindp (Storage.getitem2 mr g g1) (fun x => Storage.setitem2 cr i j (cast x)) s
  = match (x <- get2 m g g1 ;; set2 c i j (cast x)) with
    | Ok c' => Ok (tt, upd s cr (Storage.Arr2 c'))
    | Raise e => Raise e
    end.
Proof.
  intros Hm Hc. unfold Storage.bindp, Storage.getitem2, Storage.setitem2, Storage.bindp.
  rewrite (load2_at _ _ Hm). unfold Storage.lift.
  destruct (get2 m g g1) as [x|e]; simpl; [|reflexivity].
  rewrite (load2_at _ _ Hc).
  destruct (set2 c i j (cast x)) as [c'|e]; simpl; [|reflexivity].
  eapply write_at. eassumption.
Qed.

Lemma keep_other (mr cr : nat) (x : Storage.ndarray T) (s : store)
      (a : Storage.ndarray T) :
  mr <> cr -> nth_error s mr = Some x -> nth_error (upd s cr a) mr = Some x.
Proof.
  intros Hne H. destruct (Nat.lt_ge_cases cr (length s)) as [Hlt|Hge].
  - rewrite nth_error_upd by assumption.
    now replace (mr =? cr) with false by (symmetry; now apply Nat.eqb_neq).
  - now rewrite upd_out.
Qed.

(** The double loop of [chop_in_blocks], from the array at [mr] into the
    array at [cr]. *)
Lemma gather_loop_run (cast : T -> T) (mr cr : nat) (m c : matrix T) (ids : list nat)
      (s : store) :
  mr <> cr ->
  nth_error s mr = Some (Storage.Arr2 m) ->
  nth_error s cr = Some (Storage.Arr2 c) ->
  Storage.for_ (enumerate ids) (fun '(localindex, globalindex) =>
    Storage.for_ (enumerate ids) (fun '(localindex1, globalindex1) =>
      Storage.bindp (Storage.getitem2 mr globalindex globalindex1) (fun x =>
      Storage.setitem2 cr localindex localindex1 (cast x)))) s
  = match foldM (fun C '(localindex, globalindex) =>
                   foldM (fun C '(localindex1, globalindex1) =>
                            x <- get2 m globalindex globalindex1 ;;
                            set2 C localindex localindex1 (cast x))
                         (enumerate ids) C)
                (enumerate ids) c with
    | Ok c' => Ok (tt, upd s cr (Storage.Arr2 c'))
    | Raise e => Raise e
    end.
Proof.
  intros Hne Hm Hc.
  apply (for_run (@Storage.Arr2 T) cr
                 (fun s => nth_error s mr = Some (Storage.Arr2 m)));
    try assumption; [intros; now apply keep_other|].
  intros [li gi] s0 c0 Hc0 Hm0.
  apply (for_run (@Storage.Arr2 T) cr
                 (fun s => nth_error s mr = Some (Storage.Arr2 m)));
    try assumption; [intros; now apply keep_other|].
  intros [lj gj] s1 c1 Hc1 Hm1. now apply (copy_entry_run cast).
Qed.

(** The double loop of [reassemble]. *)
Lemma fill_kept_run (cast : T -> T) (ar cr : nat) (A c : matrix T) (ind : list nat)
      (s : store) :
  ar <> cr ->
  nth_error s ar = Some (Storage.Arr2 A) ->
  nth_error s cr = Some (Storage.Arr2 c) ->
  Storage.for_ (enumerate ind) (fun '(i, i1) =>
    Storage.for_ (enumerate ind) (fun '(j, j1) =>
      Storage.bindp (Storage.getitem2 ar i j) (fun x =>
      Storage.setitem2 cr i1 j1 (cast x)))) s
  = match fill_kept cast A ind c with
    | Ok c' => Ok (tt, upd s cr (Storage.Arr2 c'))
    | Raise e => Raise e
    end.
Proof.
  intros Hne Hm Hc. unfold fill_kept.
  apply (for_run (@Storage.Arr2 T) cr
                 (fun s => nth_error s ar = Some (Storage.Arr2 A)));
    try assumption; [intros; now apply keep_other|].
  intros [i i1] s0 c0 Hc0 Hm0.
  apply (for_run (@Storage.Arr2 T) cr
                 (fun s => nth_error s ar = Some (Storage.Arr2 A)));
    try assumption; [intros; now apply keep_other|].
  intros [j j1] s1 c1 Hc1 Hm1. now apply (copy_entry_run cast).
Qed.

(** The loop that writes the diagonal. *)
Lemma diag_loop_run (one : T) (cr : nat) (c : matrix T) (ids : list nat) (s : store) :
  nth_error s cr = Some (Storage.Arr2 c) ->
  Storage.for_ ids (fun i => Storage.setitem2 cr i i one) s
  = match foldM (fun newmat i => set2 newmat i i one) ids c with
    | Ok c' => Ok (tt, upd s cr (Storage.Arr2 c'))
    | Raise e => Raise e
    end.
Proof.
  intros Hc.
  apply (for_run (@Storage.Arr2 T) cr (fun _ => True)); auto.
  intros i s0 c0 Hc0 _. unfold Storage.setitem2, Storage.bindp, Storage.lift.
  rewrite (load2_at _ _ Hc0).
  destruct (set2 c0 i i one); [|reflexivity].
  eapply write_at. eassumption.
Qed.

(** The loop of [reassemble_vector]. *)
Lemma fill_kept_vector_run (cast : T -> T) (ar cr : nat) (va c : vector T)
      (ind : list nat) (s : store) :
  ar <> cr ->
  nth_error s ar = Some (Storage.Arr1 va) ->
  nth_error s cr = Some (Storage.Arr1 c) ->
  Storage.for_ (enumerate ind) (fun '(j, j1) =>
    Storage.bindp (Storage.getitem1 ar j)
                  (fun x => Storage.setitem1 cr j1 (cast x))) s
  = match fill_kept_vector cast va ind c with
    | Ok c' => Ok (tt, upd s cr (Storage.Arr1 c'))
    | Raise e => Raise e
    end.
Proof.
  intros Hne Hm Hc. unfold fill_kept_vector.
  apply (for_run (@Storage.Arr1 T) cr
                 (fun s => nth_error s ar = Some (Storage.Arr1 va)));
    try assumption; [intros; now apply keep_other|].
  intros [j j1] s0 c0 Hc0 Hm0.
  unfold Storage.bindp, Storage.getitem1, Storage.setitem1, Storage.bindp, Storage.lift.
  rewrite (load1_at _ _ Hm0).
  destruct (getitem va j) as [x|e]; simpl; [|reflexivity].
  rewrite (load1_at _ _ Hc0).
  destruct (setitem c0 j1 (cast x)); [|reflexivity].
  eapply write_at. eassumption.
Qed.
End StoreFacts.

(** ** Claims about storage *)

Lemma nth_error_snoc {A : Type} (l : list A) (a : A) :
  nth_error (l ++ [a]) (length l) = Some a.
Proof.
  rewrite nth_error_app2 by lia. now rewrite Nat.sub_diag.
Qed.

Lemma upd_snoc {A : Type} (l : list A) (a x : A) :
  upd (l ++ [a]) (length l) x = l ++ [x].
Proof.
  induction l as [|b l IH]; simpl; [reflexivity | now rewrite IH].
Qed.

Ltac store_lookup :=
  repeat first [ apply nth_error_snoc
               | rewrite nth_error_app1 by (repeat rewrite length_app; simpl; lia) ];
  try eassumption.

Ltac run_new1 EP :=
  unfold Storage.bindp at 1 in EP;
  erewrite new1_run in EP
    by (first [apply load1_at | apply load2_at | apply load3_at]; store_lookup).

Ltac plain_arrays :=
  repeat match goal with
         | H : context [batch _] |- _ => unfold batch in H
         | H : context [matrix _] |- _ => unfold matrix in H
         | H : context [vector _] |- _ => unfold vector in H
         end;
  unfold batch, matrix, vector.

Ltac store_allocated :=
  split; [repeat rewrite <- app_assoc; eexists; reflexivity|];
  repeat rewrite length_app; simpl;
  split; [repeat constructor; simpl; intuition lia | repeat constructor; lia].

Section StorageClaims.
Variable T : Type.
Variables zero one uninit : T.
Variables to_float to_complex : T -> T.
Variable set_minus : nat -> list nat -> list nat.

Abbreviation store := (Storage.store T).

Lemma storage_chop_in_blocks (s : store) (mr : nat) (m : matrix T) (ids : list nat) :
  nth_error s mr = Some (Storage.Arr2 m) ->
  match chop_in_blocks uninit to_float m ids with
  | Ok (A, B, C) =>
      exists rA rB rC s',
        Storage.chop_in_blocks uninit to_float mr ids s = Ok ((rA, rB, rC), s') /\
        allocated s s' [rA; rB; rC] /\
        nth_error s' rA = Some (Storage.Arr2 A) /\
        nth_error s' rB = Some (Storage.Arr2 B) /\
        nth_error s' rC = Some (Storage.Arr2 C)
  | Raise e => Storage.chop_in_blocks uninit to_float mr ids s = Raise e
  end.
Proof.
  clear zero one to_complex set_minus.
  intros Hm.
  assert (Hlt : mr < length s) by (apply nth_error_Some; congruence).
  remember (Storage.chop_in_blocks uninit to_float mr ids s) as P eqn:EP.
  unfold Storage.chop_in_blocks in EP.
  unfold chop_in_blocks, delete_rows_cols, cross_block.
  plain_arrays.
  run_new1 EP. cbv beta iota in EP.
  run_new1 EP.
  destruct (np_delete m ids) as [A1|e]; cbn [bind]; [|assumption].
  run_new1 EP.
  destruct (mapM (fun row => np_delete row ids) A1) as [A2|e]; cbn [bind];
    [|assumption].
  run_new1 EP.
  destruct (mapM (fun row => take row ids) m) as [cols|e]; cbn [bind];
    [|assumption].
  run_new1 EP.
  destruct (np_delete cols ids) as [B|e]; cbn [bind]; [|assumption].
  unfold Storage.bindp at 1 in EP. unfold Storage.alloc at 1 in EP.
  unfold Storage.bindp at 1 in EP.
  erewrite gather_loop_run in EP;
    [| |store_lookup|store_lookup]; [|repeat rewrite length_app; simpl; lia].
  match goal with |- context [foldM ?f ?l ?c] => destruct (foldM f l c) as [C|e] end;
    [|assumption].
  rewrite upd_snoc in EP. unfold Storage.ret in EP.
  eexists _, _, _, _. split; [exact EP|].
  split; [store_allocated|].
  split; [store_lookup|]. split; store_lookup.
Qed.

Lemma storage_chop_in_blocks_multi (s : store) (mr : nat) (m : batch T)
      (ids : list nat) :
  nth_error s mr = Some (Storage.Arr3 m) ->
  match chop_in_blocks_multi m ids with
  | Ok (A, B, C) =>
      exists rA rB rC s',
        Storage.chop_in_blocks_multi mr ids s = Ok ((rA, rB, rC), s') /\
        allocated s s' [rA; rB; rC] /\
        nth_error s' rA = Some (Storage.Arr3 A) /\
        nth_error s' rB = Some (Storage.Arr3 B) /\
        nth_error s' rC = Some (Storage.Arr3 C)
  | Raise e => Storage.chop_in_blocks_multi mr ids s = Raise e
  end.
Proof.
  clear zero one uninit to_float to_complex set_minus.
  intros Hm.
  assert (Hlt : mr < length s) by (apply nth_error_Some; congruence).
  remember (Storage.chop_in_blocks_multi mr ids s) as P eqn:EP.
  unfold Storage.chop_in_blocks_multi in EP. unfold chop_in_blocks_multi.
  plain_arrays.
  run_new1 EP. cbv beta iota in EP.
  run_new1 EP.
  destruct (mapM (fun s => np_delete s ids) m) as [A1|e]; cbn [bind]; [|assumption].
  run_new1 EP.
  destruct (mapM (mapM (fun row => np_delete row ids)) A1) as [A2|e]; cbn [bind];
    [|assumption].
  run_new1 EP.
  destruct (mapM (mapM (fun row => take row ids)) m) as [cols|e]; cbn [bind];
    [|assumption].
  run_new1 EP.
  destruct (mapM (fun s => np_delete s ids) cols) as [B|e]; cbn [bind];
    [|assumption].
  run_new1 EP.
  destruct (mapM (fun s => take s ids) m) as [rows|e]; cbn [bind]; [|assumption].
  run_new1 EP.
  destruct (mapM (mapM (fun row => take row ids)) rows) as [C|e]; cbn [bind];
    [|assumption].
  unfold Storage.ret in EP.
  eexists _, _, _, _. split; [exact EP|].
  split; [store_allocated|].
  split; [store_lookup|]. split; store_lookup.
Qed.

Lemma storage_chop_in_blocks_vector (s : store) (vr : nat) (v : vector T)
      (ids : list nat) :
  nth_error s vr = Some (Storage.Arr1 v) ->
  match chop_in_blocks_vector set_minus v ids with
  | Ok (va, vb) =>
      exists ra rb s',
        Storage.chop_in_blocks_vector set_minus vr ids s = Ok ((ra, rb), s') /\
        allocated s s' [ra; rb] /\
        nth_error s' ra = Some (Storage.Arr1 va) /\
        nth_error s' rb = Some (Storage.Arr1 vb)
  | Raise e => Storage.chop_in_blocks_vector set_minus vr ids s = Raise e
  end.
Proof.
  clear zero one uninit to_float to_complex.
  intros Hv.
  assert (Hlt : vr < length s) by (apply nth_error_Some; congruence).
  remember (Storage.chop_in_blocks_vector set_minus vr ids s) as P eqn:EP.
  unfold Storage.chop_in_blocks_vector in EP. unfold chop_in_blocks_vector.
  plain_arrays.
  unfold Storage.bindp at 1 in EP. rewrite (load1_at _ _ Hv) in EP.
  run_new1 EP.
  destruct (take v (set_minus (length v) ids)) as [va|e]; cbn [bind]; [|assumption].
  run_new1 EP.
  destruct (take v ids) as [vb|e]; cbn [bind]; [|assumption].
  unfold Storage.ret in EP.
  eexists _, _, _. split; [exact EP|].
  split; [store_allocated|]. split; store_lookup.
Qed.

Lemma storage_chop_in_blocks_vector_multi (s : store) (vr : nat)
      (v : list (vector T)) (ids : list nat) :
  nth_error s vr = Some (Storage.Arr2 v) ->
  match chop_in_blocks_vector_multi set_minus v ids with
  | Ok (va, vb) =>
      exists ra rb s',
        Storage.chop_in_blocks_vector_multi set_minus vr ids s = Ok ((ra, rb), s') /\
        allocated s s' [ra; rb] /\
        nth_error s' ra = Some (Storage.Arr2 va) /\
        nth_error s' rb = Some (Storage.Arr2 vb)
  | Raise e => Storage.chop_in_blocks_vector_multi set_minus vr ids s = Raise e
  end.
Proof.
  clear zero one uninit to_float to_complex.
  intros Hv.
  assert (Hlt : vr < length s) by (apply nth_error_Some; congruence).
  remember (Storage.chop_in_blocks_vector_multi set_minus vr ids s) as P eqn:EP.
  unfold Storage.chop_in_blocks_vector_multi in EP.
  unfold chop_in_blocks_vector_multi.
  plain_arrays.
  unfold Storage.bindp at 1 in EP. rewrite (load2_at _ _ Hv) in EP.
  unfold Storage.bindp at 1 in EP. unfold Storage.lift at 1 in EP.
  destruct (getitem v 0) as [v0|e]; cbn [bind]; [|assumption].
  run_new1 EP.
  destruct (mapM (fun row => take row (set_minus (length v0) ids)) v) as [va|e];
    cbn [bind]; [|assumption].
  run_new1 EP.
  destruct (mapM (fun row => take row ids) v) as [vb|e]; cbn [bind]; [|assumption].
  unfold Storage.ret in EP.
  eexists _, _, _. split; [exact EP|].
  split; [store_allocated|]. split; store_lookup.
Qed.

Lemma storage_reassemble (s : store) (ar : nat) (A : matrix T) (ids : list nat) :
  nth_error s ar = Some (Storage.Arr2 A) ->
  match reassemble zero one to_float set_minus A ids with
  | Ok M =>
      exists r s',
        Storage.reassemble zero one to_float set_minus ar ids s = Ok (r, s') /\
        allocated s s' [r] /\
        nth_error s' r = Some (Storage.Arr2 M)
  | Raise e => Storage.reassemble zero one to_float set_minus ar ids s = Raise e
  end.
Proof.
  clear uninit to_complex.
  intros HA.
  assert (Hlt : ar < length s) by (apply nth_error_Some; congruence).
  remember (Storage.reassemble zero one to_float set_minus ar ids s) as P eqn:EP.
  unfold Storage.reassemble in EP. unfold reassemble.
  plain_arrays.
  unfold Storage.bindp at 1 in EP. rewrite (load2_at _ _ HA) in EP.
  unfold Storage.bindp at 1 in EP. unfold Storage.alloc at 1 in EP.
  unfold Storage.bindp at 1 in EP.
  erewrite fill_kept_run in EP; [| |store_lookup|store_lookup]; [|lia].
  match goal with |- context [fill_kept ?a ?i ?c] =>
    destruct (fill_kept a i c) as [M1|e] end; cbn [bind]; [|assumption].
  rewrite upd_snoc in EP.
  unfold Storage.bindp at 1 in EP.
  erewrite diag_loop_run in EP by store_lookup.
  match goal with |- context [foldM ?f ?l ?c] => destruct (foldM f l c) as [M|e] end;
    [|assumption].
  rewrite upd_snoc in EP. unfold Storage.ret in EP.
  eexists _, _. split; [exact EP|].
  split; [store_allocated | store_lookup].
Qed.

Lemma storage_reassemble_multi (s : store) (ar : nat) (A : batch T) (ids : list nat) :
  nth_error s ar = Some (Storage.Arr3 A) ->
  match reassemble_multi zero one to_complex set_minus A ids with
  | Ok M =>
      exists r s',
        Storage.reassemble_multi zero one to_complex set_minus ar ids s = Ok (r, s') /\
        allocated s s' [r] /\
        nth_error s' r = Some (Storage.Arr3 M)
  | Raise e => Storage.reassemble_multi zero one to_complex set_minus ar ids s = Raise e
  end.
Proof.
  clear uninit to_float.
  intros HA.
  assert (Hlt : ar < length s) by (apply nth_error_Some; congruence).
  remember (Storage.reassemble_multi zero one to_complex set_minus ar ids s) as P eqn:EP.
  unfold Storage.reassemble_multi in EP. unfold reassemble_multi.
  plain_arrays.
  unfold Storage.bindp at 1 in EP. rewrite (load3_at _ _ HA) in EP.
  unfold Storage.bindp at 1 in EP. unfold Storage.lift at 1 in EP.
  destruct (mapM (fun s => get2 s 0 0) A) as [corner|e]; cbn [bind]; [|assumption].
  unfold Storage.bindp at 1 in EP. unfold Storage.lift at 1 in EP.
  destruct (getitem A 0) as [A0|e]; cbn [bind]; [|assumption].
  unfold Storage.bindp at 1 in EP. unfold Storage.alloc at 1 in EP.
  unfold Storage.bindp at 1 in EP.
  erewrite load3_at in EP by store_lookup.
  unfold Storage.bindp at 1 in EP. unfold Storage.lift at 1 in EP.
  match goal with |- context [bind (mapM ?f A) _] =>
    destruct (mapM f A) as [A'|e] end; cbn [bind]; [|assumption].
  unfold Storage.bindp at 1 in EP. unfold Storage.lift at 1 in EP.
  match goal with |- context [mapM ?f (combine A' ?n)] =>
    destruct (mapM f (combine A' n)) as [M|e] end; [|assumption].
  unfold Storage.bindp at 1 in EP.
  erewrite write_at in EP by store_lookup.
  rewrite upd_snoc in EP. unfold Storage.ret in EP.
  eexists _, _. split; [exact EP|].
  split; [store_allocated | store_lookup].
Qed.

Lemma storage_reassemble_vector (s : store) (ar : nat) (va : vector T)
      (ids : list nat) :
  nth_error s ar = Some (Storage.Arr1 va) ->
  match reassemble_vector zero to_float set_minus va ids with
  | Ok M =>
      exists r s',
        Storage.reassemble_vector zero to_float set_minus ar ids s = Ok (r, s') /\
        allocated s s' [r] /\
        nth_error s' r = Some (Storage.Arr1 M)
  | Raise e => Storage.reassemble_vector zero to_float set_minus ar ids s = Raise e
  end.
Proof.
  clear one uninit to_complex.
  intros HA.
  assert (Hlt : ar < length s) by (apply nth_error_Some; congruence).
  remember (Storage.reassemble_vector zero to_float set_minus ar ids s) as P eqn:EP.
  unfold Storage.reassemble_vector in EP. unfold reassemble_vector.
  plain_arrays.
  unfold Storage.bindp at 1 in EP. rewrite (load1_at _ _ HA) in EP.
  unfold Storage.bindp at 1 in EP. unfold Storage.alloc at 1 in EP.
  unfold Storage.bindp at 1 in EP.
  erewrite fill_kept_vector_run in EP; [| |store_lookup|store_lookup]; [|lia].
  match goal with |- context [fill_kept_vector ?a ?i ?c] =>
    destruct (fill_kept_vector a i c) as [M|e] end; [|assumption].
  rewrite upd_snoc in EP. unfold Storage.ret in EP.
  eexists _, _. split; [exact EP|].
  split; [store_allocated | store_lookup].
Qed.

Lemma storage_reassemble_vector_multi (s : store) (ar : nat) (va : list (vector T))
      (ids : list nat) :
  nth_error s ar = Some (Storage.Arr2 va) ->
  match reassemble_vector_multi zero to_complex set_minus va ids with
  | Ok M =>
      exists r s',
        Storage.reassemble_vector_multi zero to_complex set_minus ar ids s = Ok (r, s') /\
        allocated s s' [r] /\
        nth_error s' r = Some (Storage.Arr2 M)
  | Raise e => Storage.reassemble_vector_multi zero to_complex set_minus ar ids s = Raise e
  end.
Proof.
  clear one uninit to_float.
  intros HA.
  assert (Hlt : ar < length s) by (apply nth_error_Some; congruence).
  remember (Storage.reassemble_vector_multi zero to_complex set_minus ar ids s) as P eqn:EP.
  unfold Storage.reassemble_vector_multi in EP. unfold reassemble_vector_multi.
  plain_arrays.
  unfold Storage.bindp at 1 in EP. rewrite (load2_at _ _ HA) in EP.
  unfold Storage.bindp at 1 in EP. unfold Storage.lift at 1 in EP.
  destruct (mapM (fun row => getitem row 0) va) as [first|e]; cbn [bind];
    [|assumption].
  unfold Storage.bindp at 1 in EP. unfold Storage.lift at 1 in EP.
  destruct (getitem va 0) as [va0|e]; cbn [bind]; [|assumption].
  unfold Storage.bindp at 1 in EP. unfold Storage.alloc at 1 in EP.
  unfold Storage.bindp at 1 in EP.
  erewrite load2_at in EP by store_lookup.
  unfold Storage.bindp at 1 in EP. unfold Storage.lift at 1 in EP.
  match goal with |- context [bind (mapM ?f va) _] =>
    destruct (mapM f va) as [va'|e] end; cbn [bind]; [|assumption].
  unfold Storage.bindp at 1 in EP. unfold Storage.lift at 1 in EP.
  match goal with |- context [mapM ?f (combine va' ?n)] =>
    destruct (mapM f (combine va' n)) as [M|e] end; [|assumption].
  unfold Storage.bindp at 1 in EP.
  erewrite write_at in EP by store_lookup.
  rewrite upd_snoc in EP. unfold Storage.ret in EP.
  eexists _, _. split; [exact EP|].
  split; [store_allocated | store_lookup].
Qed.
End StorageClaims.

(** Writing one place of the store leaves the others as they are. *)
Lemma write_frame {T : Type} (s s' : Storage.store T) (r : nat)
      (a : Storage.ndarray T) :
  Storage.write r a s = Ok (tt, s') ->
  nth_error s' r = Some a /\ forall r', r' <> r -> nth_error s' r' = nth_error s r'.
Proof.
  unfold Storage.write. destruct (r <? length s) eqn:E; [|discriminate].
  apply Nat.ltb_lt in E. intros H. injection H as <-. split.
  - now rewrite nth_error_upd, Nat.eqb_refl.
  - intros r' Hne. rewrite nth_error_upd by assumption.
    now replace (r' =? r) with false by (symmetry; now apply Nat.eqb_neq).
Qed.

(** What [allocated] gives: the arrays that were there before the call
    are unchanged, the returned references are none of them, and a later
    write to a returned array changes no earlier array, a later write to
    an earlier array no returned one. *)
Lemma allocated_frame {T : Type} (s s' : Storage.store T) (rs : list nat) :
  allocated s s' rs ->
  (forall i, i < length s -> nth_error s' i = nth_error s i) /\
  (forall i o, i < length s -> In o rs ->
               i <> o /\
               (forall a, exists s'', Storage.write o a s' = Ok (tt, s'') /\
                                      nth_error s'' i = nth_error s i) /\
               (forall a, exists s'', Storage.write i a s' = Ok (tt, s'') /\
                                      nth_error s'' o = nth_error s' o)).
Proof.
  intros ((ext & ->) & _ & Hrs). rewrite Forall_forall in Hrs.
  assert (Hold : forall i, i < length s -> nth_error (s ++ ext) i = nth_error s i).
  { intros i Hi. now apply nth_error_app1. }
  split; [assumption|].
  intros i o Hi Ho. specialize (Hrs o Ho). simpl in Hrs.
  assert (Hne : i <> o) by lia. split; [assumption|]. split; intros a.
  - exists (upd (s ++ ext) o a).
    assert (E : Storage.write o a (s ++ ext) = Ok (tt, upd (s ++ ext) o a)).
    { unfold Storage.write.
      now replace (o <? length (s ++ ext)) with true
        by (symmetry; apply Nat.ltb_lt; lia). }
    split; [assumption|].
    rewrite (proj2 (write_frame _ _ _ E) i Hne). now apply Hold.
  - exists (upd (s ++ ext) i a).
    assert (E : Storage.write i a (s ++ ext) = Ok (tt, upd (s ++ ext) i a)).
    { unfold Storage.write.
      now replace (i <? length (s ++ ext)) with true
        by (symmetry; apply Nat.ltb_lt; rewrite length_app; lia). }
    split; [assumption|].
    apply (proj2 (write_frame _ _ _ E) o). lia.
Qed.

(** C9.  Each of the eight operations, on every input on which it
    returns, leaves every array that was in the store before the call,
    its inputs among them, as it was, and returns references to arrays
    the call itself has allocated, distinct from one another; so a later
    write to a returned array changes no input and a later write to an
    input changes no returned array.  The returned arrays hold what the
    functions above compute. *)
Theorem operations_allocate_fresh :
  forall (T : Type) (zero one uninit : T) (to_float to_complex : T -> T)
         (set_minus : nat -> list nat -> list nat)
         (s : Storage.store T) (r : nat) (idtodelete : list nat),
    (forall m A B C,
        nth_error s r = Some (Storage.Arr2 m) ->
        chop_in_blocks uninit to_float m idtodelete = Ok (A, B, C) ->
        exists rA rB rC s',
          Storage.chop_in_blocks uninit to_float r idtodelete s = Ok ((rA, rB, rC), s') /\
          allocated s s' [rA; rB; rC] /\
          nth_error s' rA = Some (Storage.Arr2 A) /\
          nth_error s' rB = Some (Storage.Arr2 B) /\
          nth_error s' rC = Some (Storage.Arr2 C)) /\
    (forall m A B C,
        nth_error s r = Some (Storage.Arr3 m) ->
        chop_in_blocks_multi m idtodelete = Ok (A, B, C) ->
        exists rA rB rC s',
          Storage.chop_in_blocks_multi r idtodelete s = Ok ((rA, rB, rC), s') /\
          allocated s s' [rA; rB; rC] /\
          nth_error s' rA = Some (Storage.Arr3 A) /\
          nth_error s' rB = Some (Storage.Arr3 B) /\
          nth_error s' rC = Some (Storage.Arr3 C)) /\
    (forall v va vb,
        nth_error s r = Some (Storage.Arr1 v) ->
        chop_in_blocks_vector set_minus v idtodelete = Ok (va, vb) ->
        exists ra rb s',
          Storage.chop_in_blocks_vector set_minus r idtodelete s = Ok ((ra, rb), s') /\
          allocated s s' [ra; rb] /\
          nth_error s' ra = Some (Storage.Arr1 va) /\
          nth_error s' rb = Some (Storage.Arr1 vb)) /\
    (forall v va vb,
        nth_error s r = Some (Storage.Arr2 v) ->
        chop_in_blocks_vector_multi set_minus v idtodelete = Ok (va, vb) ->
        exists ra rb s',
          Storage.chop_in_blocks_vector_multi set_minus r idtodelete s
          = Ok ((ra, rb), s') /\
          allocated s s' [ra; rb] /\
          nth_error s' ra = Some (Storage.Arr2 va) /\
          nth_error s' rb = Some (Storage.Arr2 vb)) /\
    (forall A M,
        nth_error s r = Some (Storage.Arr2 A) ->
        reassemble zero one to_float set_minus A idtodelete = Ok M ->
        exists rM s',
          Storage.reassemble zero one to_float set_minus r idtodelete s = Ok (rM, s') /\
          allocated s s' [rM] /\ nth_error s' rM = Some (Storage.Arr2 M)) /\
    (forall A M,
        nth_error s r = Some (Storage.Arr3 A) ->
        reassemble_multi zero one to_complex set_minus A idtodelete = Ok M ->
        exists rM s',
          Storage.reassemble_multi zero one to_complex set_minus r idtodelete s = Ok (rM, s') /\
          allocated s s' [rM] /\ nth_error s' rM = Some (Storage.Arr3 M)) /\
    (forall va v,
        nth_error s r = Some (Storage.Arr1 va) ->
        reassemble_vector zero to_float set_minus va idtodelete = Ok v ->
        exists rv s',
          Storage.reassemble_vector zero to_float set_minus r idtodelete s = Ok (rv, s') /\
          allocated s s' [rv] /\ nth_error s' rv = Some (Storage.Arr1 v)) /\
    (forall va v,
        nth_error s r = Some (Storage.Arr2 va) ->
        reassemble_vector_multi zero to_complex set_minus va idtodelete = Ok v ->
        exists rv s',
          Storage.reassemble_vector_multi zero to_complex set_minus r idtodelete s
          = Ok (rv, s') /\
          allocated s s' [rv] /\ nth_error s' rv = Some (Storage.Arr2 v)) /\
    (forall s' rs,
        allocated s s' rs ->
        (forall i, i < length s -> nth_error s' i = nth_error s i) /\
        (forall i o, i < length s -> In o rs ->
                     i <> o /\
                     (forall a, exists s'', Storage.write o a s' = Ok (tt, s'') /\
                                            nth_error s'' i = nth_error s i) /\
                     (forall a, exists s'', Storage.write i a s' = Ok (tt, s'') /\
                                            nth_error s'' o = nth_error s' o))).
Proof.
  intros T zero one uninit to_float to_complex set_minus s r ids.
  repeat match goal with |- _ /\ _ => split end.
  - intros m A B C Hr E.
    pose proof (storage_chop_in_blocks uninit to_float s r ids Hr) as H.
    now rewrite E in H.
  - intros m A B C Hr E.
    pose proof (storage_chop_in_blocks_multi s r ids Hr) as H.
    now rewrite E in H.
  - intros v va vb Hr E.
    pose proof (storage_chop_in_blocks_vector set_minus s r ids Hr) as H.
    now rewrite E in H.
  - intros v va vb Hr E.
    pose proof (storage_chop_in_blocks_vector_multi set_minus s r ids Hr) as H.
    now rewrite E in H.
  - intros A M Hr E.
    pose proof (storage_reassemble zero one to_float set_minus s r ids Hr) as H.
    now rewrite E in H.
  - intros A M Hr E.
    pose proof (storage_reassemble_multi zero one to_complex set_minus s r ids Hr) as H.
    now rewrite E in H.
  - intros va v Hr E.
    pose proof (storage_reassemble_vector zero to_float set_minus s r ids Hr) as H.
    now rewrite E in H.
  - intros va v Hr E.
    pose proof (storage_reassemble_vector_multi zero to_complex set_minus s r ids Hr) as H.
    now rewrite E in H.
  - intros s' rs. apply allocated_frame.
Qed.

Lemma operations_allocate_fresh_witness :
  let m := [[1;2;3];[2;4;5];[3;5;6]]%Z in
  let s := [Storage.Arr2 m] in
  nth_error s 0 = Some (Storage.Arr2 m) /\
  chop_in_blocks 0%Z Zfloat m [1] = Ok ([[1;3];[3;6]], [[2];[5]], [[4]])%Z /\
  exists rA rB rC s',
    Storage.chop_in_blocks 0%Z Zfloat 0 [1] s = Ok ((rA, rB, rC), s') /\
    allocated s s' [rA; rB; rC] /\
    nth_error s' 0 = Some (Storage.Arr2 m) /\
    nth_error s' rA = Some (Storage.Arr2 [[1;3];[3;6]]%Z) /\
    nth_error s' rB = Some (Storage.Arr2 [[2];[5]]%Z) /\
    nth_error s' rC = Some (Storage.Arr2 [[4]]%Z).
Proof.
  intros m s. split; [reflexivity|]. split; [reflexivity|].
  destruct (@operations_allocate_fresh Z 0%Z 1%Z 0%Z Zfloat Zfloat
                                       CPython.set_minus s 0 [1])
    as (H & _ & _ & _ & _ & _ & _ & _ & Hframe).
  destruct (H m _ _ _ eq_refl eq_refl) as (rA & rB & rC & s' & E & Ha & HA & HB & HC).
  exists rA, rB, rC, s'. split; [exact E|]. split; [exact Ha|].
  split; [|split; [exact HA | split; [exact HB | exact HC]]].
  destruct (Hframe s' _ Ha) as [Hold _]. apply (Hold 0). simpl. lia.
Defined.

(** ** Further properties of the operations *)

Lemma kept_nil (n : nat) : kept n [] = seq 0 n.
Proof.
  unfold kept.
  rewrite (filter_ext (fun i => negb (mem i [])) (fun _ => true))
    by reflexivity.
  induction (seq 0 n) as [|x l IH]; simpl; [reflexivity | now rewrite IH].
Qed.

Lemma kept_same_members (n : nat) (ids ids' : list nat) :
  (forall x, In x ids <-> In x ids') -> kept n ids = kept n ids'.
Proof.
  intros H. unfold kept. apply filter_ext. intros i. f_equal.
  destruct (mem i ids) eqn:E, (mem i ids') eqn:E'; try reflexivity.
  - apply mem_In, H, mem_In in E. congruence.
  - apply mem_In, H, mem_In in E'. congruence.
Qed.

Lemma map_nth_seq {A : Type} (d : A) (l : list A) :
  map (fun i => nth i l d) (seq 0 (length l)) = l.
Proof.
  apply (nth_ext _ _ d d); [now rewrite length_map, length_seq|].
  intros i Hi. rewrite length_map, length_seq in Hi.
  now rewrite nth_map_seq by assumption.
Qed.

Lemma kept_and_deleted (n : nat) (ids : list nat) :
  valid n ids -> Permutation (kept n ids ++ ids) (seq 0 n).
Proof.
  intros [Hnd Hin]. rewrite Forall_forall in Hin. apply NoDup_Permutation.
  - apply NoDup_app; [apply NoDup_kept | assumption|].
    intros a Ha. now apply in_kept in Ha.
  - apply seq_NoDup.
  - intros x. rewrite in_app_iff, in_kept, in_seq. split.
    + intros [[H _]|H]; [lia | specialize (Hin x H); simpl in Hin; lia].
    + intros [_ H]. destruct (In_dec Nat.eq_dec x ids); [now right | left; now split].
Qed.

(** X1.  With nothing to delete [chop_in_blocks] returns the matrix
    itself as [A], an [n] by [0] array as [B] and an empty [C]. *)
Theorem chop_in_blocks_nothing_deleted :
  forall (T : Type) (uninit : T) (to_float : T -> T) (n : nat) (m : matrix T),
    shape n n m -> chop_in_blocks uninit to_float m [] = Ok (m, repeat [] n, []).
Proof.
  intros T uninit to_float n m Hm.
  rewrite (chop_in_blocks_ok uninit to_float uninit Hm (Forall_nil _)).
  rewrite kept_nil. f_equal. f_equal. f_equal.
  - symmetry. apply (tabulate_at2 uninit Hm).
  - unfold submatrix. simpl. clear Hm.
    rewrite <- (length_seq n 0) at 2.
    induction (seq 0 n) as [|x l IH]; simpl; [reflexivity | now rewrite IH].
Qed.

Lemma chop_in_blocks_nothing_deleted_witness :
  shape 2 2 [[1;2];[2;3]]%Z /\
  chop_in_blocks 0%Z Zfloat [[1;2];[2;3]]%Z [] = Ok ([[1;2];[2;3]]%Z, [[];[]], []).
Proof.
  assert (Hm : shape 2 2 [[1;2];[2;3]]%Z)
    by (split; [reflexivity | repeat constructor]).
  split; [exact Hm|]. exact (@chop_in_blocks_nothing_deleted Z 0%Z Zfloat 2 _ Hm).
Defined.

(** X2.  The first block of [chop_in_blocks], and the rows of the
    second, depend on which indices [idtodelete] names, not on their
    order or on how often one is named: two lists in range with the same
    members give the same [A], and [B] blocks with as many rows. *)
Theorem chop_in_blocks_same_members :
  forall (T : Type) (uninit : T) (to_float : T -> T)
         (n : nat) (m : matrix T) (ids ids' : list nat),
    shape n n m ->
    Forall (fun i => i < n) ids -> Forall (fun i => i < n) ids' ->
    (forall x, In x ids <-> In x ids') ->
    exists A B C B' C',
      chop_in_blocks uninit to_float m ids = Ok (A, B, C) /\
      chop_in_blocks uninit to_float m ids' = Ok (A, B', C') /\
      length B = length B' /\ length A = length B /\
      length C = length ids /\ length C' = length ids'.
Proof.
  intros T uninit to_float n m ids ids' Hm Hin Hin' Hsame.
  rewrite (chop_in_blocks_ok uninit to_float uninit Hm Hin).
  rewrite (chop_in_blocks_ok uninit to_float uninit Hm Hin').
  rewrite <- (@kept_same_members n ids ids' Hsame).
  eexists _, _, _, _, _. split; [reflexivity|]. split; [reflexivity|].
  unfold map2d, submatrix. now rewrite !length_map.
Qed.

Lemma chop_in_blocks_same_members_witness :
  shape 3 3 [[1;2;3];[2;4;5];[3;5;6]]%Z /\
  Forall (fun i => i < 3) [0;2] /\ Forall (fun i => i < 3) [2;0;2] /\
  (forall x, In x [0;2] <-> In x [2;0;2]) /\
  exists A B C B' C',
    chop_in_blocks 0%Z Zfloat [[1;2;3];[2;4;5];[3;5;6]]%Z [0;2] = Ok (A, B, C) /\
    chop_in_blocks 0%Z Zfloat [[1;2;3];[2;4;5];[3;5;6]]%Z [2;0;2] = Ok (A, B', C') /\
    length B = length B' /\ length A = length B /\
    length C = 2 /\ length C' = 3.
Proof.
  assert (Hm : shape 3 3 [[1;2;3];[2;4;5];[3;5;6]]%Z)
    by (split; [reflexivity | repeat constructor]).
  assert (H1 : Forall (fun i => i < 3) [0;2]) by (repeat constructor).
  assert (H2 : Forall (fun i => i < 3) [2;0;2]) by (repeat constructor).
  assert (H3 : forall x, In x [0;2] <-> In x [2;0;2]) by (simpl; intuition).
  split; [exact Hm|]. split; [exact H1|]. split; [exact H2|]. split; [exact H3|].
  exact (@chop_in_blocks_same_members Z 0%Z Zfloat 3 _ [0;2] [2;0;2] Hm H1 H2 H3).
Defined.

(** X3.  [chop_in_blocks_vector] splits the vector: for [k] distinct
    indices in range the two vectors it returns have [n-k] and [k]
    entries and together hold each entry of [v] exactly once, whatever
    the order in which the kept indices are iterated. *)
Theorem chop_in_blocks_vector_partition :
  forall (T : Type) (set_minus : nat -> list nat -> list nat)
         (n : nat) (v : vector T) (idtodelete : list nat),
    length v = n -> valid n idtodelete ->
    Permutation (set_minus n idtodelete) (kept n idtodelete) ->
    exists va vb,
      chop_in_blocks_vector set_minus v idtodelete = Ok (va, vb) /\
      length va = n - length idtodelete /\ length vb = length idtodelete /\
      Permutation (va ++ vb) v.
Proof.
  intros T set_minus n v ids Hl Hv Hp. subst n.
  destruct (order_facts Hv Hp) as (_ & Hind & Hlen & _).
  pose proof Hv as [_ Hin].
  destruct v as [|d v'] eqn:Ev.
  - destruct ids as [|i ids]; [|inversion Hin; subst; simpl in *; lia].
    pose proof (Permutation_nil (Permutation_sym Hp)) as E. simpl in E.
    exists [], []. unfold chop_in_blocks_vector. simpl. rewrite E. simpl.
    repeat split. constructor.
  - rewrite <- Ev in *. clear Ev v'.
    rewrite (chop_in_blocks_vector_ok d set_minus v Hin Hind).
    eexists _, _. split; [reflexivity|].
    split; [now rewrite length_map|]. split; [apply length_map|].
    rewrite <- map_app.
    apply (Permutation_trans (l' := map (fun i => nth i v d) (seq 0 (length v)))).
    + apply Permutation_map.
      apply (Permutation_trans (Permutation_app_tail ids Hp)).
      now apply kept_and_deleted.
    + rewrite map_nth_seq. apply Permutation_refl.
Qed.

Lemma chop_in_blocks_vector_partition_witness :
  length [10;20;30;40]%Z = 4 /\ valid 4 [2;0] /\
  Permutation (CPython.set_minus 4 [2;0]) (kept 4 [2;0]) /\
  exists va vb,
    chop_in_blocks_vector CPython.set_minus [10;20;30;40]%Z [2;0] = Ok (va, vb) /\
    length va = 2 /\ length vb = 2 /\ Permutation (va ++ vb) [10;20;30;40]%Z.
Proof.
  assert (Hv : valid 4 [2;0]).
  { split; [|repeat constructor].
    constructor; [intros [H|[]]; discriminate H|].
    constructor; [intros [] | constructor]. }
  assert (Hp : Permutation (CPython.set_minus 4 [2;0]) (kept 4 [2;0])).
  { vm_compute. apply Permutation_refl. }
  split; [reflexivity|]. split; [exact Hv|]. split; [exact Hp|].
  exact (@chop_in_blocks_vector_partition Z CPython.set_minus 4 [10;20;30;40]%Z
                                          [2;0] eq_refl Hv Hp).
Defined.

(** X4.  [reassemble_vector] on [k] distinct indices in range and a
    vector of [n-k] entries returns [n] entries: [0] at every index in
    [idtodelete], and the [j]-th entry of [va], converted to float64, at
    the [j]-th kept index in the order in which the kept indices are
    iterated. *)
Theorem reassemble_vector_placement :
  forall (T : Type) (zero d : T) (to_float : T -> T)
         (set_minus : nat -> list nat -> list nat)
         (n : nat) (va : vector T) (idtodelete : list nat),
    valid n idtodelete -> length va = n - length idtodelete ->
    Permutation (set_minus n idtodelete) (kept n idtodelete) ->
    exists r,
      reassemble_vector zero to_float set_minus va idtodelete = Ok r /\
      length r = n /\
      (forall p, In p idtodelete -> nth p r d = zero) /\
      (forall j, j < n - length idtodelete ->
                 nth (nth j (set_minus n idtodelete) 0) r d = to_float (nth j va d)).
Proof.
  intros T zero d to_float set_minus n va ids Hv Hva Hp.
  destruct (order_facts Hv Hp) as (Hnd & Hind & Hlen & Hmem).
  pose proof Hv as [_ Hin]. rewrite Forall_forall in Hin, Hind.
  rewrite (@reassemble_vector_ok T zero d to_float set_minus n va ids Hv Hva Hp).
  eexists. split; [reflexivity|]. unfold placed_vector.
  rewrite length_map, length_seq, repeat_length. split; [reflexivity|]. split.
  - intros p Hp'. rewrite nth_map_seq by now apply Hin.
    replace (index_of p (set_minus n ids)) with (@None nat).
    + apply nth_repeat_lt. now apply Hin.
    + symmetry. apply index_of_None. intros H. now apply Hmem in H.
  - intros j Hj. pose proof Hj as Hj'. rewrite <- Hlen in Hj.
    rewrite nth_map_seq by (apply Hind; now apply nth_In).
    rewrite index_of_nth by assumption.
    apply nth_map_lt. now rewrite Hva.
Qed.

Lemma reassemble_vector_placement_witness :
  valid 4 [0;2] /\ length [20;40]%Z = 4 - length [0;2] /\
  Permutation (CPython.set_minus 4 [0;2]) (kept 4 [0;2]) /\
  exists r,
    reassemble_vector 0%Z Zfloat CPython.set_minus [20;40]%Z [0;2] = Ok r /\
    length r = 4 /\
    (forall p, In p [0;2] -> nth p r 0%Z = 0%Z) /\
    (forall j, j < 4 - length [0;2] ->
               nth (nth j (CPython.set_minus 4 [0;2]) 0) r 0%Z
               = Zfloat (nth j [20;40]%Z 0%Z)).
Proof.
  assert (Hv : valid 4 [0;2]).
  { split; [|repeat constructor].
    constructor; [intros [H|[]]; discriminate H|].
    constructor; [intros [] | constructor]. }
  assert (Hp : Permutation (CPython.set_minus 4 [0;2]) (kept 4 [0;2])).
  { vm_compute. apply Permutation_refl. }
  split; [exact Hv|]. split; [reflexivity|]. split; [exact Hp|].
  exact (@reassemble_vector_placement Z 0%Z 0%Z Zfloat CPython.set_minus 4 [20;40]%Z
                                      [0;2] Hv eq_refl Hp).
Defined.

(** X5.  [reassemble] writes every entry of [A]: for [k] distinct
    indices in range and an [n-k] by [n-k] matrix, the entry [A[i, j]],
    converted to float64, is at row [ind[i]] and column [ind[j]] of the
    result, [ind] being the kept indices in the order in which they are
    iterated. *)
Theorem reassemble_placement :
  forall (T : Type) (zero one d : T) (to_float : T -> T)
         (set_minus : nat -> list nat -> list nat)
         (n : nat) (A : matrix T) (idtodelete : list nat),
    valid n idtodelete ->
    shape (n - length idtodelete) (n - length idtodelete) A ->
    Permutation (set_minus n idtodelete) (kept n idtodelete) ->
    exists M,
      reassemble zero one to_float set_minus A idtodelete = Ok M /\
      shape n n M /\
      forall i j, i < n - length idtodelete -> j < n - length idtodelete ->
                  at2 d M (nth i (set_minus n idtodelete) 0)
                      (nth j (set_minus n idtodelete) 0)
                  = to_float (at2 d A i j).
Proof.
  intros T zero one d to_float set_minus n A ids Hv HA Hp.
  destruct (order_facts Hv Hp) as (Hnd & Hind & Hlen & Hmem).
  rewrite Forall_forall in Hind.
  rewrite (reassemble_valid zero one d to_float set_minus Hv HA Hp).
  eexists. split; [reflexivity|]. split; [apply shape_tabulate|].
  intros i j Hi0 Hj0. pose proof Hi0 as Hi. pose proof Hj0 as Hj.
  rewrite <- Hlen in Hi, Hj.
  pose proof (nth_In _ 0 Hi) as Hi'. pose proof (nth_In _ 0 Hj) as Hj'.
  unfold reassembled. rewrite at2_tabulate by now apply Hind.
  apply Hmem in Hi' as [_ Hi']. apply mem_not_In in Hi'.
  rewrite Hi', andb_false_r, !index_of_nth by assumption.
  apply (at2_map2d d to_float HA Hi0 Hj0).
Qed.

Lemma reassemble_placement_witness :
  valid 3 [1] /\ shape (3 - length [1]) (3 - length [1]) [[1;3];[3;6]]%Z /\
  Permutation (CPython.set_minus 3 [1]) (kept 3 [1]) /\
  exists M,
    reassemble 0%Z 1%Z Zfloat CPython.set_minus [[1;3];[3;6]]%Z [1] = Ok M /\
    shape 3 3 M /\
    forall i j, i < 3 - length [1] -> j < 3 - length [1] ->
                at2 0%Z M (nth i (CPython.set_minus 3 [1]) 0)
                    (nth j (CPython.set_minus 3 [1]) 0)
                = Zfloat (at2 0%Z [[1;3];[3;6]]%Z i j).
Proof.
  assert (Hv : valid 3 [1]).
  { split; [constructor; [intros [] | constructor] | repeat constructor]. }
  assert (HA : shape (3 - length [1]) (3 - length [1]) [[1;3];[3;6]]%Z)
    by (split; [reflexivity | repeat constructor]).
  assert (Hp : Permutation (CPython.set_minus 3 [1]) (kept 3 [1])).
  { vm_compute. apply Permutation_refl. }
  split; [exact Hv|]. split; [exact HA|]. split; [exact Hp|].
  exact (@reassemble_placement Z 0%Z 1%Z 0%Z Zfloat CPython.set_minus 3 _ [1] Hv HA Hp).
Defined.

(** X6.  [chop_in_blocks] keeps symmetry: on a symmetric matrix and
    indices in range the blocks [A] and [C] are symmetric. *)
Theorem chop_in_blocks_symmetric :
  forall (T : Type) (uninit d : T) (to_float : T -> T)
         (n : nat) (m : matrix T) (idtodelete : list nat),
    shape n n m -> Forall (fun i => i < n) idtodelete -> symmetric d n m ->
    exists A B C,
      chop_in_blocks uninit to_float m idtodelete = Ok (A, B, C) /\
      symmetric d (length A) A /\ symmetric d (length C) C.
Proof.
  intros T uninit d to_float n m ids Hm Hin Hsym.
  rewrite (chop_in_blocks_ok d to_float uninit Hm Hin).
  eexists _, _, _. split; [reflexivity|].
  assert (H : forall rows, Forall (fun i => i < n) rows ->
                           symmetric d (length (submatrix d m rows rows))
                                     (submatrix d m rows rows)).
  { intros rows Hrows i j Hi Hj. unfold submatrix in Hi, Hj.
    rewrite length_map in Hi, Hj. rewrite !at2_submatrix by assumption.
    rewrite Forall_forall in Hrows. apply Hsym; apply Hrows; now apply nth_In. }
  split.
  - apply H. apply Forall_forall. intros x Hx. now apply in_kept in Hx.
  - intros i j Hi Hj. unfold map2d, submatrix in Hi, Hj.
    rewrite !length_map in Hi, Hj.
    rewrite (at2_map2d d to_float (shape_submatrix d m ids ids) Hi Hj).
    rewrite (at2_map2d d to_float (shape_submatrix d m ids ids) Hj Hi).
    f_equal. apply (H ids Hin); unfold submatrix; now rewrite length_map.
Qed.

Lemma chop_in_blocks_symmetric_witness :
  shape 3 3 [[1;2;3];[2;4;5];[3;5;6]]%Z /\ Forall (fun i => i < 3) [1] /\
  symmetric 0%Z 3 [[1;2;3];[2;4;5];[3;5;6]]%Z /\
  exists A B C,
    chop_in_blocks 0%Z Zfloat [[1;2;3];[2;4;5];[3;5;6]]%Z [1] = Ok (A, B, C) /\
    symmetric 0%Z (length A) A /\ symmetric 0%Z (length C) C.
Proof.
  assert (Hm : shape 3 3 [[1;2;3];[2;4;5];[3;5;6]]%Z)
    by (split; [reflexivity | repeat constructor]).
  assert (Hin : Forall (fun i => i < 3) [1]) by (repeat constructor).
  assert (Hs : symmetric 0%Z 3 [[1;2;3];[2;4;5];[3;5;6]]%Z).
  { intros i j Hi Hj.
    destruct i as [|[|[|i]]]; [| | |lia];
      (destruct j as [|[|[|j]]]; [| | |lia]); reflexivity. }
  split; [exact Hm|]. split; [exact Hin|]. split; [exact Hs|].
  exact (@chop_in_blocks_symmetric Z 0%Z 0%Z Zfloat 3 _ [1] Hm Hin Hs).
Defined.

(** X7.  [reassemble] keeps symmetry: for [k] distinct indices in range
    and a symmetric [n-k] by [n-k] matrix the result is symmetric,
    whatever the order in which the kept indices are iterated. *)
Theorem reassemble_symmetric :
  forall (T : Type) (zero one d : T) (to_float : T -> T)
         (set_minus : nat -> list nat -> list nat)
         (n : nat) (A : matrix T) (idtodelete : list nat),
    valid n idtodelete ->
    shape (n - length idtodelete) (n - length idtodelete) A ->
    Permutation (set_minus n idtodelete) (kept n idtodelete) ->
    symmetric d (n - length idtodelete) A ->
    exists M,
      reassemble zero one to_float set_minus A idtodelete = Ok M /\ symmetric d n M.
Proof.
  intros T zero one d to_float set_minus n A ids Hv HA Hp Hsym.
  destruct (order_facts Hv Hp) as (_ & _ & Hlen & _).
  rewrite (reassemble_valid zero one d to_float set_minus Hv HA Hp).
  eexists. split; [reflexivity|].
  intros i j Hi Hj. unfold reassembled. rewrite !at2_tabulate by assumption.
  destruct (i =? j) eqn:E.
  - apply Nat.eqb_eq in E. subst j. now rewrite Nat.eqb_refl.
  - rewrite (Nat.eqb_sym j i), E. simpl.
    destruct (index_of i (set_minus n ids)) as [a|] eqn:Ea;
      destruct (index_of j (set_minus n ids)) as [b|] eqn:Eb; try reflexivity.
    apply index_of_Some in Ea as [Ha _], Eb as [Hb _].
    rewrite Hlen in Ha, Hb.
    rewrite (at2_map2d d to_float HA Ha Hb), (at2_map2d d to_float HA Hb Ha).
    f_equal. now apply Hsym.
Qed.

Lemma reassemble_symmetric_witness :
  valid 3 [1] /\ shape (3 - length [1]) (3 - length [1]) [[1;3];[3;6]]%Z /\
  Permutation (CPython.set_minus 3 [1]) (kept 3 [1]) /\
  symmetric 0%Z (3 - length [1]) [[1;3];[3;6]]%Z /\
  exists M,
    reassemble 0%Z 1%Z Zfloat CPython.set_minus [[1;3];[3;6]]%Z [1] = Ok M /\
    symmetric 0%Z 3 M.
Proof.
  assert (Hv : valid 3 [1]).
  { split; [constructor; [intros [] | constructor] | repeat constructor]. }
  assert (HA : shape (3 - length [1]) (3 - length [1]) [[1;3];[3;6]]%Z)
    by (split; [reflexivity | repeat constructor]).
  assert (Hp : Permutation (CPython.set_minus 3 [1]) (kept 3 [1])).
  { vm_compute. apply Permutation_refl. }
  assert (Hs : symmetric 0%Z (3 - length [1]) [[1;3];[3;6]]%Z).
  { intros i j Hi Hj. simpl in Hi, Hj.
    destruct i as [|[|i]]; [| |lia]; (destruct j as [|[|j]]; [| |lia]); reflexivity. }
  split; [exact Hv|]. split; [exact HA|]. split; [exact Hp|]. split; [exact Hs|].
  exact (@reassemble_symmetric Z 0%Z 1%Z 0%Z Zfloat CPython.set_minus 3 _ [1]
                               Hv HA Hp Hs).
Defined.

(** X8.  Where the kept indices are iterated in ascending order, and
    [0] and [1.0] are float64 values, [chop_in_blocks] undoes
    [reassemble] up to the conversion: for [k] distinct indices in range
    and an [n-k] by [n-k] matrix [A], chopping the reassembled matrix
    returns [A] converted to float64, which is [A] where the conversion
    leaves its entries as they are, an [n-k] by [k] block of zeros and
    the [k] by [k] identity. *)
Theorem chop_after_reassemble_ascending :
  forall (T : Type) (zero one uninit d : T) (to_float : T -> T)
         (set_minus : nat -> list nat -> list nat)
         (n : nat) (A : matrix T) (idtodelete : list nat),
    to_float zero = zero -> to_float one = one ->
    valid n idtodelete ->
    shape (n - length idtodelete) (n - length idtodelete) A ->
    set_minus n idtodelete = kept n idtodelete ->
    exists M,
      reassemble zero one to_float set_minus A idtodelete = Ok M /\
      chop_in_blocks uninit to_float M idtodelete
      = Ok (map2d to_float A, full (n - length idtodelete) (length idtodelete) zero,
            eye zero one (length idtodelete)) /\
      ((forall i j, i < n - length idtodelete -> j < n - length idtodelete ->
                    to_float (at2 d A i j) = at2 d A i j) ->
       map2d to_float A = A).
Proof.
  intros T zero one uninit d to_float set_minus n A ids Hzero Hone Hv HA Hasc.
  assert (Hp : Permutation (set_minus n ids) (kept n ids))
    by (rewrite Hasc; apply Permutation_refl).
  rewrite (reassemble_valid zero one d to_float set_minus Hv HA Hp).
  eexists. split; [reflexivity|]. rewrite Hasc. split.
  - apply chop_reassembled; try assumption. now apply shape_map2d.
  - apply (map2d_fixed d to_float HA).
Qed.

Lemma chop_after_reassemble_ascending_witness :
  Zfloat 0%Z = 0%Z /\ Zfloat 1%Z = 1%Z /\
  valid 3 [1] /\ shape (3 - length [1]) (3 - length [1]) [[1;2];[3;4]]%Z /\
  CPython.set_minus 3 [1] = kept 3 [1] /\
  exists M,
    reassemble 0%Z 1%Z Zfloat CPython.set_minus [[1;2];[3;4]]%Z [1] = Ok M /\
    chop_in_blocks 0%Z Zfloat M [1]
    = Ok (map2d Zfloat [[1;2];[3;4]]%Z, full (3 - length [1]) (length [1]) 0%Z,
          eye 0%Z 1%Z (length [1])).
Proof.
  assert (Hv : valid 3 [1]).
  { split; [constructor; [intros [] | constructor] | repeat constructor]. }
  assert (HA : shape (3 - length [1]) (3 - length [1]) [[1;2];[3;4]]%Z)
    by (split; [reflexivity | repeat constructor]).
  assert (Hasc : CPython.set_minus 3 [1] = kept 3 [1]) by (vm_compute; reflexivity).
  split; [reflexivity|]. split; [reflexivity|].
  split; [exact Hv|]. split; [exact HA|]. split; [exact Hasc|].
  destruct (@chop_after_reassemble_ascending Z 0%Z 1%Z 0%Z 0%Z Zfloat CPython.set_minus
                                             3 _ [1] eq_refl eq_refl Hv HA Hasc)
    as (M & E1 & E2 & _).
  exists M. split; [exact E1 | exact E2].
Defined.

Lemma index_of_seq (n i : nat) : i < n -> index_of i (seq 0 n) = Some i.
Proof.
  intros H. pose proof (@index_of_nth (seq 0 n) i (seq_NoDup n 0)) as E.
  rewrite length_seq, seq_nth in E by assumption. now apply E.
Qed.

(** X9.  With nothing to delete, and the indices [0 .. n-1] iterated in
    ascending order, [reassemble] returns the square matrix it is given,
    converted to float64, and [reassemble_vector] the vector it is
    given, converted to float64. *)
Theorem reassemble_nothing_deleted :
  forall (T : Type) (zero one : T) (to_float : T -> T)
         (set_minus : nat -> list nat -> list nat) (n : nat),
    set_minus n [] = seq 0 n ->
    (forall A : matrix T,
        shape n n A ->
        reassemble zero one to_float set_minus A [] = Ok (map2d to_float A)) /\
    (forall va : vector T,
        length va = n ->
        reassemble_vector zero to_float set_minus va [] = Ok (map to_float va)).
Proof.
  intros T zero one to_float set_minus n Hasc.
  assert (Hv : valid n []) by (split; constructor).
  assert (Hp : Permutation (set_minus n []) (kept n []))
    by (rewrite Hasc, kept_nil; apply Permutation_refl).
  split.
  - intros A HA.
    rewrite (@reassemble_valid T zero one zero to_float set_minus n A [] Hv);
      [|simpl; now rewrite Nat.sub_0_r|assumption].
    f_equal. rewrite Hasc.
    rewrite (tabulate_at2 zero (shape_map2d to_float HA)) at 2.
    apply tabulate_ext. intros i j Hi Hj. rewrite andb_false_r.
    now rewrite !index_of_seq.
  - intros va Hl.
    rewrite (@reassemble_vector_ok T zero zero to_float set_minus n va [] Hv);
      [|simpl; lia|assumption].
    f_equal. rewrite Hasc. unfold placed_vector. rewrite repeat_length.
    subst n. rewrite <- (length_map to_float va).
    etransitivity; [|apply (map_nth_seq zero (map to_float va))].
    apply map_ext_in. intros p Hp'. apply in_seq in Hp'.
    now rewrite index_of_seq by lia.
Qed.

Lemma reassemble_nothing_deleted_witness :
  CPython.set_minus 2 [] = seq 0 2 /\
  reassemble 0%Z 1%Z Zfloat CPython.set_minus [[1;2];[3;4]]%Z []
  = Ok (map2d Zfloat [[1;2];[3;4]]%Z) /\
  reassemble_vector 0%Z Zfloat CPython.set_minus [7;8]%Z [] = Ok (map Zfloat [7;8]%Z).
Proof.
  assert (Hasc : CPython.set_minus 2 [] = seq 0 2) by (vm_compute; reflexivity).
  destruct (@reassemble_nothing_deleted Z 0%Z 1%Z Zfloat CPython.set_minus 2 Hasc)
    as [HM Hvec].
  split; [exact Hasc|]. split.
  - apply HM. split; [reflexivity | repeat constructor].
  - apply Hvec. reflexivity.
Defined.

Lemma batched_equals_single_witness :
  valid 3 [1] /\ Permutation (CPython.set_minus 3 [1]) (kept 3 [1]) /\
  (exists M,
      reassemble_multi 0%Z 1%Z Zfloat CPython.set_minus [[[1;3];[3;6]]]%Z [1] = Ok M /\
      forall i s, nth_error [[[1;3];[3;6]]]%Z i = Some s ->
                  exists r r',
                    reassemble 0%Z 1%Z Zfloat CPython.set_minus s [1] = Ok r /\
                    nth_error M i = Some r' /\
                    ((forall p q, p < 2 -> q < 2 ->
                                  Zfloat (at2 0%Z s p q) = Zfloat (at2 0%Z s p q)) ->
                     r' = r)) /\
  (exists A B C,
      chop_in_blocks_multi [[[1;2;3];[2;4;5];[3;5;6]]]%Z [1] = Ok (A, B, C) /\
      forall i s, nth_error [[[1;2;3];[2;4;5];[3;5;6]]]%Z i = Some s ->
                  exists a b c c',
                    chop_in_blocks 0%Z Zfloat s [1] = Ok (a, b, c) /\
                    nth_error A i = Some a /\ nth_error B i = Some b /\
                    nth_error C i = Some c' /\ c = map2d Zfloat c').
Proof.
  assert (Hv : valid 3 [1]).
  { split; [constructor; [intros [] | constructor] | repeat constructor]. }
  assert (Hp : Permutation (CPython.set_minus 3 [1]) (kept 3 [1])).
  { vm_compute. apply Permutation_refl. }
  split; [exact Hv|]. split; [exact Hp|].
  destruct (@batched_equals_single Z 0%Z 1%Z 0%Z 0%Z Zfloat Zfloat CPython.set_minus
                                   3 [1] Hv Hp)
    as (Hchop & _ & Hre & _).
  split.
  - destruct (Hre [[[1;3];[3;6]]]%Z) as (M & E & HM);
      [simpl; lia | discriminate | repeat constructor|].
    exists M. split; [exact E|]. intros i s Hs.
    destruct (HM i s Hs) as (r & r' & E1 & E2 & _ & _ & Hsame).
    exists r, r'. split; [exact E1|]. split; [exact E2 | exact Hsame].
  - apply Hchop. repeat constructor.
Defined.

(** ** Indices that are not valid, in the reassembly *)

Lemma setitem_cases {A : Type} (l : list A) (i : nat) (x : A) :
  (exists r, setitem l i x = Ok r) \/ setitem l i x = Raise IndexError.
Proof.
  unfold setitem. destruct (i <? length l); [left; now eexists | now right].
Qed.

Lemma get2_cases {A : Type} (m : list (list A)) (i j : nat) :
  (exists x, get2 m i j = Ok x) \/ get2 m i j = Raise IndexError.
Proof.
  unfold get2. destruct (getitem_cases m i) as [[row ->] | ->]; simpl;
    [apply getitem_cases | now right].
Qed.

Lemma set2_cases {A : Type} (m : list (list A)) (i j : nat) (x : A) :
  (exists r, set2 m i j x = Ok r) \/ set2 m i j x = Raise IndexError.
Proof.
  unfold set2. destruct (getitem_cases m i) as [[row ->] | ->]; simpl;
    [|now right].
  destruct (setitem_cases row j x) as [[row' ->] | ->]; simpl;
    [apply setitem_cases | now right].
Qed.

(** A loop whose steps raise nothing but [e]. *)
Lemma foldM_cases {A St : Type} (e : exn) (f : St -> A -> result St) (l : list A) :
  (forall s x, (exists s', f s x = Ok s') \/ f s x = Raise e) ->
  forall s, (exists s', foldM f l s = Ok s') \/ foldM f l s = Raise e.
Proof.
  intros Hf. induction l as [|x l IH]; intros s; simpl; [left; now eexists|].
  destruct (Hf s x) as [[s' ->] | ->]; simpl; [apply IH | now right].
Qed.

(** A loop with a step that raises [e] from every state raises [e]. *)
Lemma foldM_raise_at {A St : Type} (e : exn) (f : St -> A -> result St)
      (l : list A) (i : nat) (x : A) :
  (forall s y, (exists s', f s y = Ok s') \/ f s y = Raise e) ->
  nth_error l i = Some x -> (forall s, f s x = Raise e) ->
  forall s, foldM f l s = Raise e.
Proof.
  intros Hf. revert i. induction l as [|y l IH]; intros i Hi Hx s.
  - destruct i; discriminate.
  - simpl. destruct i as [|i].
    + injection Hi as ->. now rewrite Hx.
    + destruct (Hf s y) as [[s' ->] | ->]; simpl; [|reflexivity].
      now apply (IH i).
Qed.

Lemma nth_error_enumerate_at {A : Type} (d : A) (l : list A) (i : nat) :
  i < length l -> nth_error (enumerate l) i = Some (i, nth i l d).
Proof.
  intros H. unfold enumerate.
  rewrite (nth_error_nth' _ (0, d)) by (rewrite length_combine, length_seq; lia).
  rewrite combine_nth by apply length_seq. now rewrite seq_nth.
Qed.

(** More kept indices than rows: the double loop reads past the end. *)
Lemma fill_kept_raises {T : Type} (cast : T -> T) (A : matrix T) (ind : list nat)
      (newmat : matrix T) :
  length A < length ind -> fill_kept cast A ind newmat = Raise IndexError.
Proof.
  intros H. unfold fill_kept.
  assert (Hinner : forall i i1 s,
             (exists s', foldM (fun newmat '(j, j1) =>
                                  x <- get2 A i j ;; set2 newmat i1 j1 (cast x))
                               (enumerate ind) s = Ok s') \/
             foldM (fun newmat '(j, j1) =>
                      x <- get2 A i j ;; set2 newmat i1 j1 (cast x))
                   (enumerate ind) s = Raise IndexError).
  { intros i i1. apply foldM_cases. intros s [j j1].
    destruct (get2_cases A i j) as [[x ->] | ->]; simpl;
      [apply set2_cases | now right]. }
  apply (@foldM_raise_at _ _ IndexError _ _ (length A)
                         (length A, nth (length A) ind 0)).
  - intros s [i i1]. apply Hinner.
  - now apply nth_error_enumerate_at.
  - intros s.
    apply (@foldM_raise_at _ _ IndexError _ _ 0 (0, nth 0 ind 0)).
    + intros s0 [j j1].
      destruct (get2_cases A (length A) j) as [[x ->] | ->]; simpl;
        [apply set2_cases | now right].
    + apply nth_error_enumerate_at. lia.
    + intros s0. unfold get2. now rewrite getitem_out.
Qed.

Lemma fill_kept_vector_raises {T : Type} (cast : T -> T) (va : vector T)
      (ind : list nat) (newv : vector T) :
  length va < length ind -> fill_kept_vector cast va ind newv = Raise IndexError.
Proof.
  intros H. unfold fill_kept_vector.
  apply (@foldM_raise_at _ _ IndexError _ _ (length va)
                         (length va, nth (length va) ind 0)).
  - intros s [j j1].
    destruct (getitem_cases va j) as [[x ->] | ->]; simpl;
      [apply setitem_cases | now right].
  - now apply nth_error_enumerate_at.
  - intros s. now rewrite getitem_out.
Qed.

(** With a repeated or out-of-range entry fewer than [k] positions are
    deleted, so more than [a] are kept. *)
Lemma kept_longer (a : nat) (ids : list nat) :
  ~ valid (a + length ids) ids -> a < length (kept (a + length ids) ids).
Proof.
  intros Hnv. set (n := a + length ids) in *.
  pose proof (filter_length (fun i => mem i ids) (seq 0 n)) as H.
  rewrite length_seq in H. cbv beta in H.
  change (filter (fun x => negb (mem x ids)) (seq 0 n)) with (kept n ids) in H.
  set (D := filter (fun i => mem i ids) (seq 0 n)) in *.
  assert (HD : NoDup D) by apply NoDup_filter, seq_NoDup.
  assert (Hincl : incl D ids).
  { intros x Hx. apply filter_In in Hx as [_ Hx]. now apply mem_In. }
  destruct (Nat.lt_ge_cases (length D) (length ids)) as [Hlt|Hge];
    [assert (En : n = a + length ids) by reflexivity; lia|].
  exfalso. apply Hnv. split.
  - apply (NoDup_incl_NoDup HD Hge Hincl).
  - apply Forall_forall. intros x Hx.
    pose proof (NoDup_length_incl HD Hge Hincl x Hx) as HxD.
    apply filter_In in HxD as [HxD _]. apply in_seq in HxD. lia.
Qed.

(** X11.  [reassemble] and [reassemble_vector] do not accept an
    [idtodelete] with a repeated entry or an entry that is not below
    [ntot = len(A) + len(idtodelete)]: the set of kept indices then has
    more members than the reduced array has rows, the loop reads past
    its end and the call fails with [IndexError]. *)
Theorem reassemble_invalid_index :
  forall (T : Type) (zero one : T) (to_float : T -> T)
         (set_minus : nat -> list nat -> list nat)
         (idtodelete : list nat),
    (forall A : matrix T,
        let n := length A + length idtodelete in
        Permutation (set_minus n idtodelete) (kept n idtodelete) ->
        ~ valid n idtodelete ->
        reassemble zero one to_float set_minus A idtodelete = Raise IndexError) /\
    (forall va : vector T,
        let n := length va + length idtodelete in
        Permutation (set_minus n idtodelete) (kept n idtodelete) ->
        ~ valid n idtodelete ->
        reassemble_vector zero to_float set_minus va idtodelete = Raise IndexError).
Proof.
  intros T zero one to_float set_minus ids. split.
  - intros A n Hp Hnv. unfold reassemble. fold n.
    rewrite fill_kept_raises; [reflexivity|].
    rewrite (Permutation_length Hp). now apply kept_longer.
  - intros va n Hp Hnv. unfold reassemble_vector. fold n.
    apply fill_kept_vector_raises.
    rewrite (Permutation_length Hp). now apply kept_longer.
Qed.

Lemma reassemble_invalid_index_witness :
  Permutation (CPython.set_minus 3 [0;0]) (kept 3 [0;0]) /\ ~ valid 3 [0;0] /\
  reassemble 0%Z 1%Z Zfloat CPython.set_minus [[5]]%Z [0;0] = Raise IndexError /\
  Permutation (CPython.set_minus 2 [7]) (kept 2 [7]) /\ ~ valid 2 [7] /\
  reassemble_vector 0%Z Zfloat CPython.set_minus [5]%Z [7] = Raise IndexError.
Proof.
  assert (Hp : Permutation (CPython.set_minus 3 [0;0]) (kept 3 [0;0])).
  { vm_compute. apply Permutation_refl. }
  assert (Hnv : ~ valid 3 [0;0]).
  { intros [Hnd _]. inversion Hnd as [|? ? Hn _]. apply Hn. now left. }
  assert (Hp' : Permutation (CPython.set_minus 2 [7]) (kept 2 [7])).
  { vm_compute. apply Permutation_refl. }
  assert (Hnv' : ~ valid 2 [7]).
  { intros [_ Hin]. inversion Hin as [|? ? H _]. lia. }
  destruct (@reassemble_invalid_index Z 0%Z 1%Z Zfloat CPython.set_minus [0;0])
    as [H1 _].
  destruct (@reassemble_invalid_index Z 0%Z 1%Z Zfloat CPython.set_minus [7])
    as [_ H2].
  split; [exact Hp|]. split; [exact Hnv|]. split; [exact (H1 [[5]]%Z Hp Hnv)|].
  split; [exact Hp'|]. split; [exact Hnv'|]. exact (H2 [5]%Z Hp' Hnv').
Defined.

Lemma broadcast_raises {A : Type} (l : list A) (n : nat) :
  2 <= length l -> length l <> n -> broadcast l n = Raise ValueError.
Proof.
  intros H2 Hne. unfold broadcast.
  replace (length l =? n) with false by (symmetry; now apply Nat.eqb_neq).
  destruct l as [|x [|y l]]; simpl in H2; try lia. reflexivity.
Qed.

(** X12.  The batched reassembly rejects a repeated or out-of-range
    entry with a different error: on a non-empty batch whose reduced
    arrays have at least two rows (entries), the assignment
    [newmat[np.ix_(...)] = A] (or [newv[:,ind] = va]) cannot broadcast
    the reduced array to the larger set of kept indices, and the call
    fails with [ValueError]. *)
Theorem reassemble_multi_invalid_index :
  forall (T : Type) (zero one : T) (to_complex : T -> T)
         (set_minus : nat -> list nat -> list nat)
         (a : nat) (idtodelete : list nat),
    let n := a + length idtodelete in
    2 <= a ->
    Permutation (set_minus n idtodelete) (kept n idtodelete) ->
    ~ valid n idtodelete ->
    (forall A : batch T,
        A <> [] -> Forall (shape a a) A ->
        reassemble_multi zero one to_complex set_minus A idtodelete = Raise ValueError) /\
    (forall va : list (vector T),
        va <> [] -> Forall (fun row => length row = a) va ->
        reassemble_vector_multi zero to_complex set_minus va idtodelete = Raise ValueError).
Proof.
  intros T zero one to_complex set_minus a ids n Ha Hp Hnv.
  assert (Hlong : a < length (set_minus n ids)).
  { rewrite (Permutation_length Hp). now apply kept_longer. }
  split.
  - intros A Hne HA. rewrite Forall_forall in HA. unfold reassemble_multi.
    rewrite (mapM_map (fun s => get2 s 0 0) (fun s => at2 zero s 0 0)).
    2:{ intros s Hs. specialize (HA s Hs). unfold get2. pose proof HA as [Hl _].
        rewrite (getitem_nth [] s) by lia. simpl.
        apply getitem_nth. rewrite (@shape_row _ a a s 0 HA); lia. }
    cbn [bind]. destruct A as [|A0 A']; [congruence|].
    cbn [getitem nth_error bind mapM].
    destruct (HA A0 (or_introl eq_refl)) as [Hl _]. rewrite Hl. fold n.
    rewrite broadcast_raises; [reflexivity | lia | lia].
  - intros va Hne Hva. rewrite Forall_forall in Hva. unfold reassemble_vector_multi.
    rewrite (mapM_map (fun row => getitem row 0) (fun row => nth 0 row zero)).
    2:{ intros row Hrow. apply getitem_nth. rewrite (Hva row Hrow). lia. }
    cbn [bind]. destruct va as [|va0 va']; [congruence|].
    cbn [getitem nth_error bind mapM].
    pose proof (Hva va0 (or_introl eq_refl)) as Hl. rewrite Hl. fold n.
    rewrite broadcast_raises; [reflexivity | lia | lia].
Qed.

Lemma reassemble_multi_invalid_index_witness :
  2 <= 2 /\ Permutation (CPython.set_minus 4 [0;0]) (kept 4 [0;0]) /\
  ~ valid 4 [0;0] /\
  reassemble_multi 0%Z 1%Z Zfloat CPython.set_minus [[[1;2];[3;4]]]%Z [0;0]
  = Raise ValueError /\
  reassemble_vector_multi 0%Z Zfloat CPython.set_minus [[1;2]]%Z [0;0] = Raise ValueError.
Proof.
  assert (Hp : Permutation (CPython.set_minus 4 [0;0]) (kept 4 [0;0])).
  { vm_compute. apply Permutation_refl. }
  assert (Hnv : ~ valid 4 [0;0]).
  { intros [Hnd _]. inversion Hnd as [|? ? Hn _]. apply Hn. now left. }
  destruct (@reassemble_multi_invalid_index Z 0%Z 1%Z Zfloat CPython.set_minus 2 [0;0]
                                            (le_n 2) Hp Hnv) as [H1 H2].
  split; [exact (le_n 2)|]. split; [exact Hp|]. split; [exact Hnv|]. split.
  - apply H1; [discriminate | repeat constructor].
  - apply H2; [discriminate | repeat constructor].
Defined.

(** X13.  For vectors the two operations agree on the order whatever it
    is: for [k] distinct indices in range and a vector [va] of [n-k]
    entries, [chop_in_blocks_vector] of the reassembled vector returns
    [va] converted to float64, which is [va] where the conversion leaves
    its entries as they are, and [k] zeros. *)
Theorem chop_vector_after_reassemble_vector :
  forall (T : Type) (zero : T) (to_float : T -> T)
         (set_minus : nat -> list nat -> list nat)
         (n : nat) (va : vector T) (idtodelete : list nat),
    valid n idtodelete -> length va = n - length idtodelete ->
    Permutation (set_minus n idtodelete) (kept n idtodelete) ->
    exists r,
      reassemble_vector zero to_float set_minus va idtodelete = Ok r /\
      chop_in_blocks_vector set_minus r idtodelete
      = Ok (map to_float va, repeat zero (length idtodelete)) /\
      ((forall p, p < n - length idtodelete ->
                  to_float (nth p va zero) = nth p va zero) ->
       map to_float va = va).
Proof.
  intros T zero to_float set_minus n va ids Hv Hva Hp.
  destruct (order_facts Hv Hp) as (Hnd & Hind & Hlen & Hmem).
  pose proof Hv as [_ Hin].
  rewrite (@reassemble_vector_ok T zero zero to_float set_minus n va ids Hv Hva Hp).
  eexists. split; [reflexivity|].
  set (r := placed_vector zero (map to_float va) (set_minus n ids) (repeat zero n)).
  assert (Hr : length r = n).
  { unfold r, placed_vector. now rewrite length_map, length_seq, repeat_length. }
  split.
  2:{ intros Hfix. rewrite <- (map_id va) at 2.
      apply (map_agree zero to_float (fun x => x)). intros p Hp'.
      apply Hfix. now rewrite <- Hva. }
  rewrite (chop_in_blocks_vector_ok zero set_minus r); rewrite Hr; try assumption.
  rewrite Forall_forall in Hin, Hind. f_equal. f_equal.
  - apply (nth_ext _ _ zero zero); [rewrite !length_map; lia|].
    intros j Hj. rewrite length_map in Hj.
    rewrite (nth_indep _ zero (nth 0 r zero)) by now rewrite length_map.
    rewrite (map_nth (fun i => nth i r zero) (set_minus n ids) 0 j).
    unfold r, placed_vector. rewrite repeat_length.
    rewrite nth_map_seq by (apply Hind; now apply nth_In).
    now rewrite index_of_nth.
  - rewrite <- (length_map (fun p => nth p r zero) ids).
    apply (nth_ext _ _ zero zero); [now rewrite repeat_length|].
    intros j Hj. rewrite nth_repeat_lt by assumption. rewrite length_map in Hj.
    rewrite (nth_indep _ zero (nth 0 r zero)) by now rewrite length_map.
    rewrite (map_nth (fun i => nth i r zero) ids 0 j).
    pose proof (nth_In ids 0 Hj) as Hx.
    unfold r, placed_vector. rewrite repeat_length.
    rewrite nth_map_seq by now apply Hin.
    replace (index_of (nth j ids 0) (set_minus n ids)) with (@None nat).
    + apply nth_repeat_lt. now apply Hin.
    + symmetry. apply index_of_None. intros H. now apply Hmem in H.
Qed.

Lemma chop_vector_after_reassemble_vector_witness :
  valid 10 [0;2;3;4;5;6;7;9] /\ length [5;6]%Z = 10 - length [0;2;3;4;5;6;7;9] /\
  Permutation (CPython.set_minus 10 [0;2;3;4;5;6;7;9]) (kept 10 [0;2;3;4;5;6;7;9]) /\
  exists r,
    reassemble_vector 0%Z Zfloat CPython.set_minus [5;6]%Z [0;2;3;4;5;6;7;9] = Ok r /\
    chop_in_blocks_vector CPython.set_minus r [0;2;3;4;5;6;7;9]
    = Ok (map Zfloat [5;6]%Z, repeat 0%Z (length [0;2;3;4;5;6;7;9])).
Proof.
  assert (Hv : valid 10 [0;2;3;4;5;6;7;9]).
  { split; [|repeat constructor].
    repeat (constructor; [simpl; intuition discriminate|]). constructor. }
  assert (Hp : Permutation (CPython.set_minus 10 [0;2;3;4;5;6;7;9])
                           (kept 10 [0;2;3;4;5;6;7;9])).
  { vm_compute. apply perm_swap. }
  split; [exact Hv|]. split; [reflexivity|]. split; [exact Hp|].
  destruct (@chop_vector_after_reassemble_vector Z 0%Z Zfloat CPython.set_minus 10
              [5;6]%Z [0;2;3;4;5;6;7;9] Hv eq_refl Hp) as (r & E1 & E2 & _).
  exists r. split; [exact E1 | exact E2].
Defined.
